(** * NFR (Network Flight Recorder): configuration, monitoring scope and
      the query pipeline.

    The first part embeds [config/config.go]: the [Config] structure, the
    defaults, the validation of the configuration and of the scope groups,
    and the two entry points [New] and [Read].  Everything the package
    obtains from its surroundings (files, network interfaces, the YAML
    decoder, the address parsers of package [net], [utils.IsDomainName])
    is a field of the record [World].

    The second part models the scope resolver, the query buffer and the
    flusher with its failure store on the specification, and the third
    gives one concrete [World].  The statements follow: defaults and
    validation (C7, C8, C10), the scope groups (C4, C9), the scope
    decision (C1, C2, C3) and the pipeline (C6, C5).

    [Save], [SaveDefault] and the command [account register] are embedded
    over a record of services; further properties of the package and of
    the command (X1 to X16) close the file. *)

From Stdlib Require Import ZArith Ascii String List Bool Lia.
From stdpp Require Import base decidable option list strings gmap fin_maps sorting pretty.

Local Open Scope string_scope.
Local Open Scope list_scope.
Local Open Scope Z_scope.

(** ** Addresses and networks, as package [net] hands them out *)

(** An address is its family and its value as an unsigned number
    (32 bits for IPv4, 128 bits for IPv6). *)
Inductive IP : Type :=
| IPv4 (a : Z)
| IPv6 (a : Z).

(** A network in CIDR form: the address and the number of leading one-bits
    of the mask. *)
Record IPNet : Type := mkIPNet { net_ip : IP; net_ones : Z }.

(** ** Errors

    One constructor per [fmt.Errorf] call site of the package; the
    arguments are the values formatted into the message. *)
Inductive error : Type :=
| ErrReadConfig (cause : string)            (* "config: %s" *)
| ErrParseConfig (cause : string)           (* "parse config: %s" *)
| ErrEmptyInterface                         (* "config: empty network.interface" *)
| ErrCantOpenInterface (iface cause : string)
| ErrEmptyProtocols                         (* "config: empty protocol list" *)
| ErrTooManyProtocols
| ErrInvalidProtocol (proto : string)
| ErrInvalidPort (port : Z)
| ErrInvalidLogLevel (level : string)
| ErrCantStatDir (dir cause : string)
| ErrNotDirectory (dir : string)
| ErrNotRegular (file : string)
| ErrCantStatFile (file cause : string)
| ErrWrapConfig (e : error)                 (* fmt.Errorf("config: %s", err) *)
| ErrPollInterval                           (* "... poll interval must be at least 5s" *)
| ErrBufferSize                             (* "... buffer size must be at least 64" *)
| ErrFlushInterval                          (* "... flush interval must be at least 5s" *)
| ErrScopeRead (cause : string)             (* "scope config: %s " *)
| ErrScopeParse (cause : string)            (* "parse scope config: %s " *)
| ErrNotCIDR (n : string)
| ErrNotCIDRNorIP (n : string)
| ErrNotDomainName (domain : string).

(** A Go [error] value: [None] is [nil]. *)
Abbreviation goerror := (option error).

(** [a ;;; b]: run [b] only when [a] returned [nil] (the early [return] of
    an [if err != nil] block). *)
Definition andThen (a b : goerror) : goerror :=
  match a with
  | Some e => Some e
  | None => b
  end.
Notation "a ;;; b" := (andThen a b) (at level 60, right associativity).

(** [if cond { return err }]. *)
Definition failWhen (cond : bool) (e : error) : goerror :=
  if cond then Some e else None.

(** ** The configuration structure *)

Record AlphasocT : Type := mkAlphasoc { Host : string; APIKey : string }.
Record NetworkT : Type :=
  mkNetwork { Interface : string; Protocols : list string; Port : Z }.
Record LogT : Type := mkLog { LogFile : string; Level : string }.
Record DataT : Type := mkData { DataFile : string }.
Record ScopeT : Type := mkScope { ScopeFile : string }.

Record ExcludeT : Type :=
  mkExclude { ExcludeNetworks : list string; ExcludeDomains : list string }.
Record GroupT : Type := mkGroup { Networks : list string; Exclude : ExcludeT }.
Record ScopeConfigT : Type := mkScopeConfig { Groups : gmap string GroupT }.

(** [time.Duration] is a number of nanoseconds. *)
Definition Nanosecond : Z := 1.
Definition Second : Z := 1000000000 * Nanosecond.
Definition Minute : Z := 60 * Second.

Record EventsT : Type := mkEvents { EventsFile : string; PollInterval : Z }.
Record FailedT : Type := mkFailed { FailedFile : string }.
Record QueriesT : Type :=
  mkQueries { BufferSize : Z; FlushInterval : Z; Failed : FailedT }.

Record Config : Type := mkConfig {
  Alphasoc : AlphasocT;
  Network : NetworkT;
  Log : LogT;
  Data : DataT;
  Scope : ScopeT;
  ScopeConfig : ScopeConfigT;
  Events : EventsT;
  Queries : QueriesT
}.

(** [Config{}]: every field at its zero value. *)
Definition zeroConfig : Config :=
  {| Alphasoc := mkAlphasoc "" "";
     Network := mkNetwork "" [] 0;
     Log := mkLog "" "";
     Data := mkData "";
     Scope := mkScope "";
     ScopeConfig := mkScopeConfig ∅;
     Events := mkEvents "" 0;
     Queries := mkQueries 0 0 (mkFailed "") |}.

Definition DefaultLocation : string := "/etc/nfr/config.yml".

(** ** The surroundings of the package *)

Inductive FileMode : Type := ModeRegular | ModeDir | ModeOther.

(** Result of [os.Stat]: the file information, or an error which
    [os.IsNotExist] recognises or not. *)
Inductive StatResult : Type :=
| StatInfo (mode : FileMode)
| StatFail (notExist : bool) (cause : string).

Definition IsDir (m : FileMode) : bool :=
  match m with ModeDir => true | _ => false end.
Definition IsRegular (m : FileMode) : bool :=
  match m with ModeRegular => true | _ => false end.

Record World : Type := mkWorld {
  (* operating system *)
  ReadFile : string -> string + string;
  Stat : string -> StatResult;
  InterfaceByName : string -> option string;   (* [Some cause]: an error *)
  GOOS : string;
  Getenv : string -> string;
  (* package path *)
  path_Dir : string -> string;
  path_Join : string -> string -> string;
  (* gopkg.in/yaml.v2: the decoded document, or the decoder's error *)
  yamlConfig : string -> Config + string;
  yamlScope : string -> gmap string GroupT + string;
  (* package net and utils *)
  ParseCIDR : string -> option IPNet;
  ParseIP : string -> option IP;
  IsDomainName : string -> bool
}.

(** ** Helpers from the Go standard library *)

(** [strings.HasPrefix s prefix]. *)
Fixpoint HasPrefix (s prefix : string) {struct prefix} : bool :=
  match prefix, s with
  | EmptyString, _ => true
  | String p prefix', String c s' => if Ascii.eqb c p then HasPrefix s' prefix' else false
  | String _ _, EmptyString => false
  end.

(** [s[n:]]. *)
Fixpoint dropString (n : nat) (s : string) : string :=
  match n, s with
  | O, _ => s
  | S n', String _ s' => dropString n' s'
  | S _, EmptyString => EmptyString
  end.

(** [strings.TrimPrefix s prefix]: [s] without the leading [prefix], or
    [s] itself when it does not start with [prefix]. *)
Definition TrimPrefix (s prefix : string) : string :=
  if HasPrefix s prefix then dropString (String.length prefix) s else s.

(** [sort.Strings]: ascending byte-wise order. *)
Fixpoint insertSorted (x : string) (l : list string) : list string :=
  match l with
  | [] => [x]
  | y :: l' => if String.leb x y then x :: l else y :: insertSorted x l'
  end.
Definition sortStrings (l : list string) : list string :=
  foldr insertSorted [] l.

Definition isEmpty (s : string) : bool := bool_decide (s = "").

(** ** The built-in scope *)

Definition newline : string := String "010"%char EmptyString.
Definition dquote : string := String "034"%char EmptyString.
Definition quoted (s : string) : string := dquote +:+ s +:+ dquote.

(** Each line followed by a line feed. *)
Definition unlines (ls : list string) : string :=
  foldr (fun l rest => l +:+ newline +:+ rest) "" ls.

(** The constant [defaultScope], line by line (the raw string literal
    opens with a line feed, and the four domains are double-quoted). *)
Definition defaultScope : string :=
  unlines [
    "";
    "groups:";
    "  default:";
    "    networks:";
    "    - 10.0.0.0/8";
    "    - 192.168.0.0/16";
    "    - 172.16.0.0/12";
    "    - fc00::/7";
    "    exclude:";
    "      domains:";
    "       - " +:+ quoted "*.arpa";
    "       - " +:+ quoted "*.lan";
    "       - " +:+ quoted "*.local";
    "       - " +:+ quoted "*.internal";
    "      networks:"
  ].

(** ** Package [config] *)

Section Config.
Context (W : World).

(** [validateFilename] checks if file can be created. *)
Definition validateFilename (file : string) (noFileOutput : bool) : goerror :=
  if noFileOutput && (bool_decide (file = "stdout") || bool_decide (file = "stderr"))
  then None
  else
    let dir := path_Dir W file in
    match Stat W dir with
    | StatFail _ cause => Some (ErrCantStatDir dir cause)
    | StatInfo mode =>
        if negb (IsDir mode) then Some (ErrNotDirectory dir)
        else
          match Stat W file with
          | StatInfo fmode =>
              if negb (IsRegular fmode) then Some (ErrNotRegular file) else None
          | StatFail notExist cause =>
              if negb notExist then Some (ErrCantStatFile file cause) else None
          end
    end.

(** [fmt.Errorf("config: %s", err)] around a callee's error. *)
Definition wrapConfig (r : goerror) : goerror :=
  match r with
  | Some e => Some (ErrWrapConfig e)
  | None => None
  end.

(** The loop over the protocol list of [validate]. *)
Fixpoint validateProtocols (protos : list string) : goerror :=
  match protos with
  | [] => None
  | proto :: rest =>
      if bool_decide (proto ≠ "udp") && bool_decide (proto ≠ "tcp")
      then Some (ErrInvalidProtocol proto)
      else validateProtocols rest
  end.

Definition validate (cfg : Config) : goerror :=
  failWhen (isEmpty (Interface (Network cfg))) ErrEmptyInterface ;;;
  match InterfaceByName W (Interface (Network cfg)) with
  | Some cause => Some (ErrCantOpenInterface (Interface (Network cfg)) cause)
  | None => None
  end ;;;
  failWhen (Nat.eqb (length (Protocols (Network cfg))) 0) ErrEmptyProtocols ;;;
  failWhen (Nat.ltb 2 (length (Protocols (Network cfg)))) ErrTooManyProtocols ;;;
  validateProtocols (Protocols (Network cfg)) ;;;
  failWhen ((Port (Network cfg) <? 0) || (65535 <? Port (Network cfg)))
           (ErrInvalidPort (Port (Network cfg))) ;;;
  wrapConfig (validateFilename (LogFile (Log cfg)) true) ;;;
  failWhen (bool_decide (Level (Log cfg) ≠ "debug") &&
            bool_decide (Level (Log cfg) ≠ "info") &&
            bool_decide (Level (Log cfg) ≠ "warn") &&
            bool_decide (Level (Log cfg) ≠ "error"))
           (ErrInvalidLogLevel (Level (Log cfg))) ;;;
  validateFilename (DataFile (Data cfg)) false ;;;
  (if isEmpty (EventsFile (Events cfg)) then None
   else wrapConfig (validateFilename (EventsFile (Events cfg)) true)) ;;;
  failWhen (PollInterval (Events cfg) <? 5 * Second) ErrPollInterval ;;;
  failWhen (BufferSize (Queries cfg) <? 64) ErrBufferSize ;;;
  failWhen (FlushInterval (Queries cfg) <? 5 * Second) ErrFlushInterval ;;;
  (if isEmpty (FailedFile (Failed (Queries cfg))) then None
   else wrapConfig (validateFilename (FailedFile (Failed (Queries cfg))) false)).

(** *** Scope groups *)

(** [for _, n := range group.Networks]: only CIDR is allowed. *)
Fixpoint validateNetworks (ns : list string) : goerror :=
  match ns with
  | [] => None
  | n :: rest =>
      match ParseCIDR W n with
      | None => Some (ErrNotCIDR n)
      | Some _ => validateNetworks rest
      end
  end.

(** [for _, n := range group.Exclude.Networks]: CIDR or a single IP. *)
Fixpoint validateExcludeNetworks (ns : list string) : goerror :=
  match ns with
  | [] => None
  | n :: rest =>
      match ParseCIDR W n, ParseIP W n with
      | None, None => Some (ErrNotCIDRNorIP n)
      | _, _ => validateExcludeNetworks rest
      end
  end.

(** [for _, domain := range group.Exclude.Domains], with the leading
    [*.] of a multimatch domain trimmed for the second try. *)
Fixpoint validateExcludeDomains (ds : list string) : goerror :=
  match ds with
  | [] => None
  | domain :: rest =>
      if negb (IsDomainName W domain) &&
         negb (IsDomainName W (TrimPrefix domain "*."))
      then Some (ErrNotDomainName domain)
      else validateExcludeDomains rest
  end.

Definition validateGroup (group : GroupT) : goerror :=
  validateNetworks (Networks group) ;;;
  validateExcludeNetworks (ExcludeNetworks (Exclude group)) ;;;
  validateExcludeDomains (ExcludeDomains (Exclude group)).

(** The outer loop, over the groups in the order the [range] over the
    map happens to visit them. *)
Fixpoint validateGroups (groups : list (string * GroupT)) : goerror :=
  match groups with
  | [] => None
  | (_, group) :: rest => validateGroup group ;;; validateGroups rest
  end.

(** Go leaves the iteration order of a map unspecified; the order of
    [map_to_list] stands for it here, and [validateGroups] is stated for
    any order. *)
Definition validateScopeConfig (cfg : Config) : goerror :=
  validateGroups (map_to_list (Groups (ScopeConfig cfg))).

Definition withGroups (cfg : Config) (gs : gmap string GroupT) : Config :=
  {| Alphasoc := Alphasoc cfg; Network := Network cfg; Log := Log cfg;
     Data := Data cfg; Scope := Scope cfg;
     ScopeConfig := mkScopeConfig gs;
     Events := Events cfg; Queries := Queries cfg |}.

(** Load scope config from yaml file, or use default one.  The decoder
    writes into the map [cfg.ScopeConfig.Groups] that is already there:
    a decoded group replaces the one of the same name, others stay.
    Returns the configuration as the call leaves it, and the error. *)
Definition loadScopeConfig (cfg : Config) : Config * goerror :=
  let content :=
    if isEmpty (ScopeFile (Scope cfg)) then inl defaultScope
    else ReadFile W (ScopeFile (Scope cfg)) in
  match content with
  | inr cause => (cfg, Some (ErrScopeRead cause))
  | inl content =>
      match yamlScope W content with
      | inr cause => (cfg, Some (ErrScopeParse cause))
      | inl groups =>
          let cfg' := withGroups cfg (groups ∪ Groups (ScopeConfig cfg)) in
          (cfg', validateScopeConfig cfg')
      end
  end.

Definition orDefault (s default : string) : string :=
  if isEmpty s then default else s.
Definition orDefaultZ (n default : Z) : Z :=
  if n =? 0 then default else n.

Definition setDefaults (cfg : Config) : Config :=
  let cfg' :=
    {| Alphasoc :=
         mkAlphasoc (orDefault (Host (Alphasoc cfg)) "https://api.alphasoc.net")
                    (APIKey (Alphasoc cfg));
       Network :=
         mkNetwork (Interface (Network cfg))
                   (if Nat.eqb (length (Protocols (Network cfg))) 0
                    then ["udp"] else Protocols (Network cfg))
                   (orDefaultZ (Port (Network cfg)) 53);
       Log :=
         mkLog (orDefault (LogFile (Log cfg)) "stdout")
               (orDefault (Level (Log cfg)) "info");
       Data :=
         mkData (if isEmpty (DataFile (Data cfg))
                 then if bool_decide (GOOS W = "windows")
                      then path_Join W (Getenv W "APPDATA") "nfr.data"
                      else path_Join W "/run" "nfr.data"
                 else DataFile (Data cfg));
       Scope := Scope cfg;
       ScopeConfig := ScopeConfig cfg;
       Events :=
         mkEvents (orDefault (EventsFile (Events cfg)) "stderr")
                  (orDefaultZ (PollInterval (Events cfg)) (5 * Minute));
       Queries :=
         mkQueries (orDefaultZ (BufferSize (Queries cfg)) 65535)
                   (orDefaultZ (FlushInterval (Queries cfg)) (30 * Second))
                   (Failed (Queries cfg)) |} in
  (* cfg.loadScopeConfig(): the error is dropped *)
  fst (loadScopeConfig cfg').

Definition sortProtocols (cfg : Config) : Config :=
  {| Alphasoc := Alphasoc cfg;
     Network := mkNetwork (Interface (Network cfg))
                          (sortStrings (Protocols (Network cfg)))
                          (Port (Network cfg));
     Log := Log cfg; Data := Data cfg; Scope := Scope cfg;
     ScopeConfig := ScopeConfig cfg; Events := Events cfg;
     Queries := Queries cfg |}.

(** [Read] reads config from the given file.  The result is the pair
    of the returned pointer and error; [None] in the first component is
    the [nil] pointer.  The field [ScopeConfig] carries the tag [yaml:"-"]: the
    decoder of the configuration file never fills it. *)
Definition Read (file : string) : option Config * goerror :=
  match ReadFile W file with
  | inr cause => (None, Some (ErrReadConfig cause))
  | inl content =>
      match yamlConfig W content with
      | inr cause => (None, Some (ErrParseConfig cause))
      | inl decoded =>
          let cfg := withGroups decoded (Groups (ScopeConfig zeroConfig)) in
          match loadScopeConfig cfg with
          | (_, Some err) => (None, Some err)
          | (cfg, None) =>
              let cfg := setDefaults cfg in
              let cfg := sortProtocols cfg in
              (Some cfg, validate cfg)
          end
      end
  end.

(** [New] reads the config from file location. If file is not set then
    it tries to read from default location, if this fails, then default
    config is returned. *)
Definition New (file : string) : option Config * goerror :=
  if negb (isEmpty file) then Read file
  else
    match Stat W DefaultLocation with
    | StatInfo _ => Read DefaultLocation
    | StatFail _ _ => (Some (setDefaults zeroConfig), None)
    end.

End Config.

(** ** Writing the configuration, and the command [account register]

    [Save] and [SaveDefault] of [config/config.go] and [register] of the
    command package call the YAML encoder, the file system, the terminal
    and the API client.  Each of these is a field of [Services]; what a
    function does to them is the list of [Event]s it returns, in order,
    next to its result.  The errors of these functions are the errors of
    the services, passed on as they are: an error is its message. *)

Inductive Message : Type :=
| UsingKey (key : string)         (* "Using key %s for registration" *)
| ProvideDetails                  (* "Please provide your details ..." *)
| EmptyLine                       (* fmt.Fprintln(os.Stderr) *)
| UnableToCreate (key : string)   (* "Unable to create /etc/nfr/config.yml ..." *)
| Success                         (* "Success! The configuration has been written ..." *)
| RunAgainWithKey (key : string)  (* "... $ nfr account register --key %s" *)
| RunAgain                        (* "... $ nfr account register" *)
| CheckEmail.                     (* "Next, check your email ..." *)

Section Services.
Context {Details : Type}.

Inductive Event : Type :=
| SetKey (key : string)                   (* c.SetKey *)
| AskStatus                               (* c.AccountStatus *)
| AskDetails                              (* utils.GetAccountRegisterDetails *)
| RequestKey                              (* c.KeyRequest *)
| Mkdir (dir : string)                    (* os.MkdirAll *)
| Write (file content : string)           (* ioutil.WriteFile *)
| Register (key : string) (req : Details) (* c.AccountRegister *)
| Print (m : Message).

Record Services : Type := mkServices {
  yamlMarshal : Config -> string + string;
  WriteFile : string -> string -> option string;
  MkdirAll : string -> option string;
  filepath_Dir : string -> string;
  (* the API client, by the key it holds *)
  AccountStatus : string -> bool + string;      (* [Registered], or an error *)
  KeyRequest : string -> string + string;       (* the new key, or an error *)
  AccountRegister : string -> Details -> option string;
  (* the terminal *)
  GetAccountRegisterDetails : Details + string
}.

Context (S : Services).

(** [Save] saves config to file. *)
Definition Save (cfg : Config) (file : string) : list Event * option string :=
  match yamlMarshal S cfg with
  | inr err => ([], Some err)
  | inl content => ([Write file content], WriteFile S file content)
  end.

(** [SaveDefault] saves config to default file, after creating the default
    directory if it does not exist. *)
Definition SaveDefault (cfg : Config) : list Event * option string :=
  let dir := filepath_Dir S DefaultLocation in
  match MkdirAll S dir with
  | Some err => ([Mkdir dir], Some err)
  | None =>
      let '(events, err) := Save cfg DefaultLocation in
      (Mkdir dir :: events, err)
  end.

Definition withAPIKey (key : string) (cfg : Config) : Config :=
  {| Alphasoc := mkAlphasoc (Host (Alphasoc cfg)) key;
     Network := Network cfg; Log := Log cfg; Data := Data cfg;
     Scope := Scope cfg; ScopeConfig := ScopeConfig cfg;
     Events := Events cfg; Queries := Queries cfg |}.

(** What [register] leaves behind: the configuration and the key of the
    client as it changed them, what it did, and the error it returns. *)
Record Registered : Type := mkRegistered {
  cfgAfter : Config;
  keyAfter : string;
  did : list Event;
  result : option string
}.

(** [register] of the command [account register]; [clientKey] is the key
    the client holds when it is called. *)
Definition register (cfg : Config) (clientKey : string)
    (configPath key : string) : Registered :=
  let '(k1, t1) :=
    if negb (isEmpty key) then (key, [SetKey key; Print (UsingKey key)])
    else if negb (isEmpty (APIKey (Alphasoc cfg)))
         then (APIKey (Alphasoc cfg),
               [SetKey (APIKey (Alphasoc cfg));
                Print (UsingKey (APIKey (Alphasoc cfg)))])
         else (clientKey, []) in
  match AccountStatus S k1 with
  | inl true =>
      mkRegistered cfg k1 (t1 ++ [AskStatus]) (Some "Account is already registered")
  | _ =>
      let t2 := t1 ++ [AskStatus; Print ProvideDetails; AskDetails] in
      match GetAccountRegisterDetails S with
      | inr err => mkRegistered cfg k1 t2 (Some err)
      | inl req =>
          let requested :=
            if isEmpty key && isEmpty (APIKey (Alphasoc cfg))
            then match KeyRequest S k1 with
                 | inr err => inr err
                 | inl newKey =>
                     inl (withAPIKey newKey cfg, newKey, [RequestKey; SetKey newKey])
                 end
            else inl (cfg, k1, []) in
          match requested with
          | inr err => mkRegistered cfg k1 (t2 ++ [RequestKey; Print EmptyLine]) (Some err)
          | inl (cfg2, k2, t3) =>
              let '(saved, errSave) :=
                if isEmpty configPath then SaveDefault cfg2 else Save cfg2 configPath in
              let t4 :=
                t2 ++ t3 ++ saved ++
                [Print (match errSave with
                        | Some _ => UnableToCreate (APIKey (Alphasoc cfg2))
                        | None => Success
                        end)] in
              match AccountRegister S k2 req with
              | Some err =>
                  mkRegistered cfg2 k2
                    (t4 ++ [Register k2 req;
                            Print (match errSave with
                                   | Some _ => RunAgainWithKey (APIKey (Alphasoc cfg2))
                                   | None => RunAgain
                                   end)])
                    (Some err)
              | None =>
                  mkRegistered cfg2 k2 (t4 ++ [Register k2 req; Print CheckEmail]) None
              end
          end
      end
  end.

End Services.

(** * The monitoring scope (ScopeResolver)

    The package that evaluates the scope is not among the sources at hand;
    this part follows the specification (sections 3 and 4.1). *)

Module Resolver.

(** Modelled from the spec: an entry of a group's exclude networks, which
    the scope evaluation package (absent) matches as an exact IP or as a
    CIDR network. *)
Inductive NetEntry : Type :=
| EntryCIDR (n : IPNet)
| EntryIP (ip : IP).

(** Modelled from the spec: a pattern of the (absent) domain matcher,
    either an exact domain or a wildcard [*.<suffix>]. *)
Inductive Pattern : Type :=
| Exact (domain : string)
| Wildcard (suffix : string).

(** Modelled from the spec: the Group of the data model (the name is the
    key of the mapping that holds it); sets are kept as lists, only
    membership is ever asked. *)
Record Group : Type := mkGroup {
  inclusionNetworks : list IPNet;
  excludeNetworks : list NetEntry;
  excludeDomainPatterns : list Pattern
}.

(** Modelled from the spec: width, value and family of an address, for the
    network test of the absent resolver. *)
Definition bitlen (ip : IP) : Z :=
  match ip with IPv4 _ => 32 | IPv6 _ => 128 end.
Definition value (ip : IP) : Z :=
  match ip with IPv4 a => a | IPv6 a => a end.
Definition sameFamily (a b : IP) : bool :=
  match a, b with
  | IPv4 _, IPv4 _ | IPv6 _, IPv6 _ => true
  | _, _ => false
  end.

(** Modelled from the spec: containment of an address in a CIDR network
    (the absent resolver's network test): same family and the same
    leading [net_ones] bits. *)
Definition Contains (n : IPNet) (ip : IP) : bool :=
  sameFamily (net_ip n) ip &&
  (Z.shiftr (value (net_ip n)) (bitlen ip - net_ones n) =?
   Z.shiftr (value ip) (bitlen ip - net_ones n)).

(** Modelled from the spec: the exact-IP match and the match of one
    exclude entry (exact IP or CIDR) of the absent resolver. *)
Definition sameIP (a b : IP) : bool :=
  sameFamily a b && (value a =? value b).

Definition entryMatches (e : NetEntry) (ip : IP) : bool :=
  match e with
  | EntryCIDR n => Contains n ip
  | EntryIP x => sameIP x ip
  end.

(** Modelled from the spec: ASCII lower case, for the case-insensitive
    comparison of the absent matcher. *)
Definition lowerAscii (c : ascii) : ascii :=
  let n := nat_of_ascii c in
  if (65 <=? n)%nat && (n <=? 90)%nat then ascii_of_nat (n + 32) else c.

Fixpoint toLower (s : string) : string :=
  match s with
  | EmptyString => EmptyString
  | String c s' => String (lowerAscii c) (toLower s')
  end.

(** Modelled from the spec: equality of two strings up to ASCII case,
    character by character (the absent matcher's comparison). *)
Fixpoint EqualFold (s t : string) : bool :=
  match s, t with
  | EmptyString, EmptyString => true
  | String a s', String b t' =>
      Ascii.eqb (lowerAscii a) (lowerAscii b) && EqualFold s' t'
  | _, _ => false
  end.

(** Modelled from the spec: [fqdn] ends with a given string (the suffix
    test of the absent matcher, as [strings.HasSuffix]). *)
Definition HasSuffix (s suffix : string) : bool :=
  (String.length suffix <=? String.length s)%nat &&
  String.eqb (dropString (String.length s - String.length suffix) s) suffix.

(** Modelled from the spec: the domain match rule of the absent matcher:
    an exact pattern matches only identical (case-insensitive) strings;
    a wildcard pattern [*.<suffix>] matches [fqdn] if [fqdn == suffix] or
    [fqdn] ends with ["." + suffix]. *)
Definition matchPattern (p : Pattern) (fqdn : string) : bool :=
  match p with
  | Exact domain => EqualFold fqdn domain
  | Wildcard suffix =>
      String.eqb fqdn suffix || HasSuffix fqdn ("." +:+ suffix)
  end.

(** Modelled from the spec: how an exclude domain of the scope file
    becomes a pattern of the absent matcher (a leading [*.] makes a
    wildcard). *)
Definition parsePattern (s : string) : Pattern :=
  if HasPrefix s "*." then Wildcard (dropString 2 s) else Exact s.

(** Modelled from the spec: the three conditions of one group in the
    absent resolver. *)
Definition included (g : Group) (ip : IP) : bool :=
  existsb (fun n => Contains n ip) (inclusionNetworks g).
Definition excludedIP (g : Group) (ip : IP) : bool :=
  existsb (fun e => entryMatches e ip) (excludeNetworks g).
Definition excludedDomain (g : Group) (fqdn : string) : bool :=
  existsb (fun p => matchPattern p fqdn) (excludeDomainPatterns g).

(** Modelled from the spec: the decision of one group, in the absent
    resolver: included, and excluded neither by address nor by domain. *)
Definition groupDecision (g : Group) (ip : IP) (fqdn : string) : bool :=
  included g ip && negb (excludedIP g ip) && negb (excludedDomain g fqdn).

(** Modelled from the spec: the per-group decisions of the absent
    resolver combined with logical OR, the groups taken in the given
    order. *)
Definition IsInScopeIn (order : list (string * Group))
    (ip : IP) (fqdn : string) : bool :=
  existsb (fun ng => groupDecision (snd ng) ip fqdn) order.

(** Modelled from the spec: [IsInScope(sourceIP, fqdn)] of the absent
    ScopeResolver, over the mapping name -> Group. *)
Definition IsInScope (groups : gmap string Group)
    (ip : IP) (fqdn : string) : bool :=
  IsInScopeIn (map_to_list groups) ip fqdn.

(** *** Building the resolver from a scope configuration *)

Section Build.
Context (W : World).

(** Modelled from the spec: an exclude network of the configuration as an
    entry of the absent resolver, CIDR first, then single IP. *)
Definition buildEntry (n : string) : option NetEntry :=
  match ParseCIDR W n with
  | Some net => Some (EntryCIDR net)
  | None =>
      match ParseIP W n with
      | Some ip => Some (EntryIP ip)
      | None => None
      end
  end.

(** Modelled from the spec: construction of a Group of the absent
    resolver from the strings of the configuration; it fails on an
    entry that does not parse. *)
Definition buildGroup (g : GroupT) : option Group :=
  match mapM (ParseCIDR W) (Networks g),
        mapM buildEntry (ExcludeNetworks (Exclude g)) with
  | Some incl, Some excl =>
      Some (mkGroup incl excl (map parsePattern (ExcludeDomains (Exclude g))))
  | _, _ => None
  end.

(** Modelled from the spec: a named group of the absent resolver. *)
Definition buildNamed (ng : string * GroupT) : option (string * Group) :=
  match buildGroup (snd ng) with
  | Some g => Some (fst ng, g)
  | None => None
  end.

(** Modelled from the spec: the ScopeResolver is built once from the
    scope configuration (the constructor is absent). *)
Definition buildResolver (cfg : Config) : option (gmap string Group) :=
  match mapM buildNamed (map_to_list (Groups (ScopeConfig cfg))) with
  | Some l => Some (list_to_map l)
  | None => None
  end.
End Build.

End Resolver.

(** * The query pipeline (QueryBuffer, Flusher, FailedQueryStore)

    Again modelled on the specification (sections 3, 4.2 and 4.3); the
    packages themselves are not among the sources at hand. *)

Module Pipeline.

(** Modelled from the spec: the Query record of the data model. *)
Record Query : Type := mkQuery {
  timestamp : Z;
  sourceIP : IP;
  recordType : string;
  fqdn : string
}.

Abbreviation QueryBatch := (list Query).

(** Modelled from the spec: the QueryBuffer (absent): the capacity
    [BufferSize] and the active buffer, in insertion order. *)
Record QueryBuffer : Type := mkBuffer {
  capacity : nat;
  active : list Query
}.

(** Modelled from the spec: the empty QueryBuffer of capacity
    [BufferSize] (the constructor is absent). *)
Definition newBuffer (bufferSize : nat) : QueryBuffer :=
  mkBuffer bufferSize [].

(** Modelled from the spec: [Push] appends; if the resulting length
    reaches capacity, it signals an immediate flush (the boolean). *)
Definition Push (q : Query) (b : QueryBuffer) : QueryBuffer * bool :=
  let items := active b ++ [q] in
  (mkBuffer (capacity b) items, (capacity b <=? length items)%nat).

(** Modelled from the spec: [SwapAndDrain] replaces the active buffer
    with a fresh empty one and returns the drained contents. *)
Definition SwapAndDrain (b : QueryBuffer) : QueryBuffer * QueryBatch :=
  (mkBuffer (capacity b) [], active b).

(** Modelled from the spec: the absent Dispatcher and flush trigger on a
    run of pushes with no timer tick in between: every flush signal is
    served by a swap before the next push.  Returns the buffer and the
    batches flushed so far, oldest first. *)
Fixpoint pushAll (qs : list Query) (b : QueryBuffer)
    (flushed : list QueryBatch) : QueryBuffer * list QueryBatch :=
  match qs with
  | [] => (b, flushed)
  | q :: rest =>
      let '(b1, signal) := Push q b in
      if signal
      then let '(b2, batch) := SwapAndDrain b1 in
           pushAll rest b2 (flushed ++ [batch])
      else pushAll rest b1 flushed
  end.

(** Modelled from the spec: a FailedBatch, a batch plus its enqueue
    order. *)
Record FailedBatch : Type := mkFailedBatch {
  enqueued : nat;
  batch : QueryBatch
}.

(** Modelled from the spec: the absent Flusher with its FailedQueryStore
    (oldest entry first).
    [attempts] counts the calls of the remote client so far, [sent] lists
    the batches handed to it, in call order. *)
Record Flusher : Type := mkFlusher {
  backed : bool;                  (* a backing file is configured *)
  store : list FailedBatch;
  nextEnqueue : nat;
  attempts : nat;
  sent : list QueryBatch
}.

(** Modelled from the spec: the persisted failure log of the absent
    store: one record per undelivered query, in order, each belonging to
    the batch with the given enqueue number. *)
Definition onDisk (f : Flusher) : list (nat * Query) :=
  flat_map (fun fb => map (fun q => (enqueued fb, q)) (batch fb)) (store f).

Section Flush.
(** The remote client [SendQueries(batch) -> error] of the specification:
    whether the [n]-th call, with the given batch, succeeds. *)
Context (SendQueries : nat -> QueryBatch -> bool).

(** Modelled from the spec: the resend loop of the absent Flusher over
    the stored batches, oldest first; the result is the entries whose
    resend failed, in order. *)
Fixpoint resend (n : nat) (entries : list FailedBatch) : list FailedBatch :=
  match entries with
  | [] => []
  | fb :: rest =>
      if SendQueries n (batch fb)
      then resend (S n) rest
      else fb :: resend (S n) rest
  end.

(** Modelled from the spec: [Flush(batch)] of the absent Flusher:
    first resend all batches currently in the store (oldest first),
    removing those that succeed; then send the new batch and, on
    failure, append it to the store (dropped if the store has no
    backing file). *)
Definition Flush (new : QueryBatch) (f : Flusher) : Flusher :=
  let kept := resend (attempts f) (store f) in
  let n := (attempts f + length (store f))%nat in
  let ok := SendQueries n new in
  {| backed := backed f;
     store := if ok || negb (backed f) then kept
              else kept ++ [mkFailedBatch (nextEnqueue f) new];
     nextEnqueue := if ok then nextEnqueue f else S (nextEnqueue f);
     attempts := S n;
     sent := sent f ++ map batch (store f) ++ [new] |}.
End Flush.

(** Modelled from the spec: the enqueue order of the absent store:
    enqueue numbers are distinct, increasing, and below the next one to
    be given out. *)
Fixpoint increasing (bound : nat) (entries : list FailedBatch) : Prop :=
  match entries with
  | [] => True
  | fb :: rest =>
      (enqueued fb < bound)%nat /\ Forall (fun x => (enqueued fb < enqueued x)%nat) rest
      /\ increasing bound rest
  end.

Definition wellFormed (f : Flusher) : Prop :=
  increasing (nextEnqueue f) (store f).

End Pipeline.

(** * A sample world

    One concrete [World] to run the package in: address parsers for the
    dotted-quad and the colon-hexadecimal notations, a domain-name check in
    the manner of RFC 1035, a decoder for the block-style YAML that the
    configuration and scope files are written in, and a small file table.
    It instantiates the statements below on concrete inputs. *)

Module Sample.

(** *** Numbers and fields *)

Fixpoint splitOn (sep : ascii) (s : string) : list string :=
  match s with
  | EmptyString => [EmptyString]
  | String c s' =>
      if Ascii.eqb c sep then EmptyString :: splitOn sep s'
      else match splitOn sep s' with
           | [] => [String c EmptyString]
           | w :: ws => String c w :: ws
           end
  end.

Definition code (c : ascii) : Z := Z.of_nat (nat_of_ascii c).
Definition between (lo hi : Z) (c : ascii) : bool :=
  (lo <=? code c) && (code c <=? hi).

Definition digitValue (c : ascii) : option Z :=
  if between 48 57 c then Some (code c - 48) else None.
Definition hexValue (c : ascii) : option Z :=
  if between 48 57 c then Some (code c - 48)
  else if between 97 102 c then Some (code c - 87)
  else if between 65 70 c then Some (code c - 55)
  else None.

Fixpoint parseNumber (base : Z) (digit : ascii -> option Z)
    (acc : Z) (s : string) : option Z :=
  match s with
  | EmptyString => Some acc
  | String c s' =>
      match digit c with
      | Some d => parseNumber base digit (acc * base + d) s'
      | None => None
      end
  end.

Definition decimal (s : string) : option Z :=
  if isEmpty s then None else parseNumber 10 digitValue 0 s.
Definition hex16 (s : string) : option Z :=
  if isEmpty s || (4 <? String.length s)%nat then None
  else parseNumber 16 hexValue 0 s.
Definition octet (s : string) : option Z :=
  match decimal s with
  | Some n => if (n <=? 255) && (String.length s <=? 3)%nat then Some n else None
  | None => None
  end.

(** *** Addresses *)

Definition parseIPv4 (s : string) : option IP :=
  match mapM octet (splitOn "." s) with
  | Some [a; b; c; d] => Some (IPv4 (((a * 256 + b) * 256 + c) * 256 + d))
  | _ => None
  end.

(** The text before and after the first [::]. *)
Fixpoint cutDoubleColon (s : string) : option (string * string) :=
  match s with
  | EmptyString => None
  | String c s' =>
      if Ascii.eqb c ":" && HasPrefix s' ":" then Some (EmptyString, dropString 1 s')
      else match cutDoubleColon s' with
           | Some (h, t) => Some (String c h, t)
           | None => None
           end
  end.

Definition hexGroups (s : string) : option (list Z) :=
  if isEmpty s then Some [] else mapM hex16 (splitOn ":" s).

Definition joinGroups (gs : list Z) : Z :=
  fold_left (fun acc g => acc * 65536 + g) gs 0.

(** Eight groups of hexadecimal digits, one run of zero groups may be
    written [::] (the form with a dotted-quad tail is left out). *)
Definition parseIPv6 (s : string) : option IP :=
  match cutDoubleColon s with
  | Some (h, t) =>
      match hexGroups h, hexGroups t with
      | Some hs, Some ts =>
          if (length hs + length ts <=? 7)%nat
          then Some (IPv6 (joinGroups
                 (hs ++ repeat 0 (8 - (length hs + length ts)) ++ ts)))
          else None
      | _, _ => None
      end
  | None =>
      match hexGroups s with
      | Some gs => if (length gs =? 8)%nat then Some (IPv6 (joinGroups gs)) else None
      | None => None
      end
  end.

Definition sampleParseIP (s : string) : option IP :=
  match parseIPv4 s with
  | Some ip => Some ip
  | None => parseIPv6 s
  end.

Definition masked (ip : IP) (ones : Z) : IP :=
  let k := Resolver.bitlen ip - ones in
  match ip with
  | IPv4 a => IPv4 (Z.shiftl (Z.shiftr a k) k)
  | IPv6 a => IPv6 (Z.shiftl (Z.shiftr a k) k)
  end.

Definition sampleParseCIDR (s : string) : option IPNet :=
  match splitOn "/" s with
  | [addr; mask] =>
      match sampleParseIP addr, decimal mask with
      | Some ip, Some n =>
          if n <=? Resolver.bitlen ip then Some (mkIPNet (masked ip n) n) else None
      | _, _ => None
      end
  | _ => None
  end.

(** *** Domain names *)

Definition isLetter (c : ascii) : bool :=
  between 97 122 c || between 65 90 c || Ascii.eqb c "_".

Fixpoint domainScan (s : string) (last : ascii) (ok : bool) (partlen : nat) : bool :=
  match s with
  | EmptyString => negb (Ascii.eqb last "-") && (partlen <=? 63)%nat && ok
  | String c s' =>
      if isLetter c then domainScan s' c true (S partlen)
      else if between 48 57 c then domainScan s' c ok (S partlen)
      else if Ascii.eqb c "-" then
        if Ascii.eqb last "." then false else domainScan s' c ok (S partlen)
      else if Ascii.eqb c "." then
        if Ascii.eqb last "." || Ascii.eqb last "-" then false
        else if (63 <? partlen)%nat || (partlen =? 0)%nat then false
        else domainScan s' c ok 0
      else false
  end.

Definition sampleIsDomainName (s : string) : bool :=
  if isEmpty s || (255 <? String.length s)%nat then false
  else domainScan s "." false 0.

(** *** Block-style YAML *)

Inductive Token : Type :=
| TItem (v : string)            (* [- v] *)
| TKey (k : string)             (* [k:] *)
| TKeyVal (k v : string).       (* [k: v] *)

Fixpoint indentOf (s : string) : nat * string :=
  match s with
  | String c s' =>
      if Ascii.eqb c " " then let '(n, t) := indentOf s' in (S n, t) else (O, s)
  | EmptyString => (O, s)
  end.

Fixpoint trimRight (s : string) : string :=
  match s with
  | EmptyString => EmptyString
  | String c s' =>
      let r := trimRight s' in
      if Ascii.eqb c " " && isEmpty r then EmptyString else String c r
  end.
Definition trim (s : string) : string := trimRight (snd (indentOf s)).

Fixpoint dropLast (s : string) : string :=
  match s with
  | EmptyString => EmptyString
  | String c EmptyString => EmptyString
  | String c s' => String c (dropLast s')
  end.

(** A double-quoted scalar loses its quotes. *)
Definition unquote (s : string) : string :=
  if HasPrefix s dquote && Resolver.HasSuffix s dquote && (2 <=? String.length s)%nat
  then dropLast (dropString 1 s) else s.

(** The key and the rest, at the first colon that ends the line or is
    followed by a space. *)
Fixpoint cutKey (s : string) : option (string * string) :=
  match s with
  | EmptyString => None
  | String c s' =>
      if Ascii.eqb c ":" && (isEmpty s' || HasPrefix s' " ") then Some (EmptyString, s')
      else match cutKey s' with
           | Some (k, v) => Some (String c k, v)
           | None => None
           end
  end.

Inductive Line : Type :=
| Blank                         (* empty, or a comment *)
| Tok (indent : nat) (t : Token)
| Bad.

Definition tokenize (line : string) : Line :=
  let '(indent, text) := indentOf line in
  let text := trimRight text in
  if isEmpty text || HasPrefix text "#" then Blank
  else if HasPrefix text "- " then Tok indent (TItem (unquote (trim (dropString 2 text))))
  else match cutKey text with
       | Some (k, v) =>
           if isEmpty (trim v) then Tok indent (TKey k)
           else Tok indent (TKeyVal k (unquote (trim v)))
       | None => Bad
       end.

(** The open mappings, innermost first, each with its indentation. *)
Fixpoint popWhile (p : nat -> bool) (stack : list (nat * string)) : list (nat * string) :=
  match stack with
  | (i, k) :: rest => if p i then popWhile p rest else stack
  | [] => []
  end.
Definition pathOf (stack : list (nat * string)) : list string :=
  rev (map snd stack).

(** The document as a list of events: the path of keys of a scalar or a
    sequence item with its value, or the path of a key that opens a
    block.  A sequence may sit at the indentation of its key. *)
Fixpoint events (lines : list Line) (stack : list (nat * string))
    : list (list string * option string) :=
  match lines with
  | [] => []
  | Tok i (TKey k) :: rest =>
      let st := (i, k) :: popWhile (fun j => (i <=? j)%nat) stack in
      (pathOf st, None) :: events rest st
  | Tok i (TKeyVal k v) :: rest =>
      let st := popWhile (fun j => (i <=? j)%nat) stack in
      (pathOf ((i, k) :: st), Some v) :: events rest st
  | Tok i (TItem v) :: rest =>
      let st := popWhile (fun j => (i <? j)%nat) stack in
      (pathOf st, Some v) :: events rest st
  | _ :: rest => events rest stack
  end.

Definition isBad (l : Line) : bool :=
  match l with Bad => true | _ => false end.

Definition document (content : string)
    : list (list string * option string) + string :=
  let lines := map tokenize (splitOn "010" content) in
  if existsb isBad lines then inr "yaml: could not find expected ':'"
  else inl (events lines []).

(** *** The scope file *)

Definition zeroGroup : GroupT := mkGroup [] (mkExclude [] []).

Definition addNetwork (v : string) (g : GroupT) : GroupT :=
  mkGroup (Networks g ++ [v]) (Exclude g).
Definition addExcludeNetwork (v : string) (g : GroupT) : GroupT :=
  mkGroup (Networks g)
          (mkExclude (ExcludeNetworks (Exclude g) ++ [v]) (ExcludeDomains (Exclude g))).
Definition addExcludeDomain (v : string) (g : GroupT) : GroupT :=
  mkGroup (Networks g)
          (mkExclude (ExcludeNetworks (Exclude g)) (ExcludeDomains (Exclude g) ++ [v])).

Definition scopeEvent (m : gmap string GroupT)
    (ev : list string * option string) : gmap string GroupT :=
  match ev with
  | ([g; name], None) =>
      if bool_decide (g = "groups") then <[name := zeroGroup]> m else m
  | ([g; name; k], Some v) =>
      if bool_decide (g = "groups") && bool_decide (k = "networks")
      then alter (addNetwork v) name m else m
  | ([g; name; e; k], Some v) =>
      if bool_decide (g = "groups") && bool_decide (e = "exclude")
      then if bool_decide (k = "domains") then alter (addExcludeDomain v) name m
           else if bool_decide (k = "networks") then alter (addExcludeNetwork v) name m
           else m
      else m
  | _ => m
  end.

Definition sampleYamlScope (content : string) : gmap string GroupT + string :=
  match document content with
  | inl evs => inl (fold_left scopeEvent evs ∅)
  | inr e => inr e
  end.

(** *** The configuration file *)

Definition integer (s : string) : option Z :=
  if HasPrefix s "-" then Z.opp <$> decimal (dropString 1 s) else decimal s.

(** A [time.Duration]: a count of nanoseconds, or a number with one of
    the units s, m, h. *)
Definition duration (s : string) : option Z :=
  match integer s with
  | Some n => Some n
  | None =>
      let unit := dropString (String.length s - 1) s in
      match decimal (dropLast s) with
      | Some k =>
          if String.eqb unit "s" then Some (k * Second)
          else if String.eqb unit "m" then Some (k * Minute)
          else if String.eqb unit "h" then Some (k * (60 * Minute))
          else None
      | None => None
      end
  end.

Definition setAlphasoc (x : AlphasocT) (c : Config) : Config :=
  mkConfig x (Network c) (Log c) (Data c) (Scope c) (ScopeConfig c) (Events c) (Queries c).
Definition setNetwork (x : NetworkT) (c : Config) : Config :=
  mkConfig (Alphasoc c) x (Log c) (Data c) (Scope c) (ScopeConfig c) (Events c) (Queries c).
Definition setLog (x : LogT) (c : Config) : Config :=
  mkConfig (Alphasoc c) (Network c) x (Data c) (Scope c) (ScopeConfig c) (Events c) (Queries c).
Definition setData (x : DataT) (c : Config) : Config :=
  mkConfig (Alphasoc c) (Network c) (Log c) x (Scope c) (ScopeConfig c) (Events c) (Queries c).
Definition setScope (x : ScopeT) (c : Config) : Config :=
  mkConfig (Alphasoc c) (Network c) (Log c) (Data c) x (ScopeConfig c) (Events c) (Queries c).
Definition setEvents (x : EventsT) (c : Config) : Config :=
  mkConfig (Alphasoc c) (Network c) (Log c) (Data c) (Scope c) (ScopeConfig c) x (Queries c).
Definition setQueries (x : QueriesT) (c : Config) : Config :=
  mkConfig (Alphasoc c) (Network c) (Log c) (Data c) (Scope c) (ScopeConfig c) (Events c) x.

(** One scalar of the configuration file, by the [yaml] tags of the
    fields; [None] when a number or a duration does not parse. *)
Definition configScalar (c : Config) (path : list string) (v : string) : option Config :=
  let n := Network c in
  let q := Queries c in
  match path with
  | [s; k] =>
      if String.eqb s "alphasoc" && String.eqb k "host"
      then Some (setAlphasoc (mkAlphasoc v (APIKey (Alphasoc c))) c)
      else if String.eqb s "alphasoc" && String.eqb k "api_key"
      then Some (setAlphasoc (mkAlphasoc (Host (Alphasoc c)) v) c)
      else if String.eqb s "network" && String.eqb k "interface"
      then Some (setNetwork (mkNetwork v (Protocols n) (Port n)) c)
      else if String.eqb s "network" && String.eqb k "protocols"
      then Some (setNetwork (mkNetwork (Interface n) (Protocols n ++ [v]) (Port n)) c)
      else if String.eqb s "network" && String.eqb k "port"
      then (fun p => setNetwork (mkNetwork (Interface n) (Protocols n) p) c) <$> integer v
      else if String.eqb s "log" && String.eqb k "file"
      then Some (setLog (mkLog v (Level (Log c))) c)
      else if String.eqb s "log" && String.eqb k "level"
      then Some (setLog (mkLog (LogFile (Log c)) v) c)
      else if String.eqb s "data" && String.eqb k "file"
      then Some (setData (mkData v) c)
      else if String.eqb s "scope" && String.eqb k "file"
      then Some (setScope (mkScope v) c)
      else if String.eqb s "events" && String.eqb k "file"
      then Some (setEvents (mkEvents v (PollInterval (Events c))) c)
      else if String.eqb s "events" && String.eqb k "poll_interval"
      then (fun d => setEvents (mkEvents (EventsFile (Events c)) d) c) <$> duration v
      else if String.eqb s "queries" && String.eqb k "buffer_size"
      then (fun b => setQueries (mkQueries b (FlushInterval q) (Failed q)) c) <$> integer v
      else if String.eqb s "queries" && String.eqb k "flush_interval"
      then (fun d => setQueries (mkQueries (BufferSize q) d (Failed q)) c) <$> duration v
      else Some c
  | [s; k; k'] =>
      if String.eqb s "queries" && String.eqb k "failed" && String.eqb k' "file"
      then Some (setQueries (mkQueries (BufferSize q) (FlushInterval q) (mkFailed v)) c)
      else Some c
  | _ => Some c
  end.

Definition configEvent (acc : option Config)
    (ev : list string * option string) : option Config :=
  match acc, ev with
  | Some c, (path, Some v) => configScalar c path v
  | _, _ => acc
  end.

Definition sampleYamlConfig (content : string) : Config + string :=
  match document content with
  | inl evs =>
      match fold_left configEvent evs (Some zeroConfig) with
      | Some c => inl c
      | None => inr "yaml: unmarshal errors"
      end
  | inr e => inr e
  end.

(** *** Files, directories and interfaces *)

Fixpoint assoc (files : list (string * string)) (name : string) : option string :=
  match files with
  | [] => None
  | (n, c) :: rest => if String.eqb n name then Some c else assoc rest name
  end.

Definition directories : list string := ["/"; "/etc/nfr"; "/run"; "/var/log"].

Definition sampleStat (files : list (string * string)) (name : string) : StatResult :=
  if existsb (String.eqb name) directories then StatInfo ModeDir
  else if String.eqb name "/dev/null" then StatInfo ModeOther
  else match assoc files name with
       | Some _ => StatInfo ModeRegular
       | None => StatFail true "no such file or directory"
       end.

Definition joinWith (sep : string) (parts : list string) : string :=
  match parts with
  | [] => EmptyString
  | p :: rest => fold_left (fun acc x => acc +:+ sep +:+ x) rest p
  end.

(** All but the last element of a slash-separated path. *)
Definition sampleDir (file : string) : string :=
  let parts := splitOn "/" file in
  let dir := joinWith "/" (removelast parts) in
  if isEmpty dir then (if HasPrefix file "/" then "/" else ".") else dir.

Definition sampleJoin (a b : string) : string :=
  if isEmpty a then b else a +:+ "/" +:+ b.

Definition sampleInterface (name : string) : option string :=
  if String.eqb name "eth0" || String.eqb name "lo" then None
  else Some "no such network interface".

(** A Linux host holding the given files. *)
Definition world (files : list (string * string)) : World :=
  {| ReadFile := fun name =>
       match assoc files name with
       | Some c => inl c
       | None => inr ("open " +:+ name +:+ ": no such file or directory")
       end;
     Stat := sampleStat files;
     InterfaceByName := sampleInterface;
     GOOS := "linux";
     Getenv := fun _ => EmptyString;
     path_Dir := sampleDir;
     path_Join := sampleJoin;
     yamlConfig := sampleYamlConfig;
     yamlScope := sampleYamlScope;
     ParseCIDR := sampleParseCIDR;
     ParseIP := sampleParseIP;
     IsDomainName := sampleIsDomainName |}.

(** *** Sample files *)

Definition configYml : string :=
  unlines [
    "# nfr";
    "network:";
    "  interface: eth0";
    "  protocols:";
    "  - udp";
    "  - tcp";
    "queries:";
    "  buffer_size: 100";
    "  flush_interval: 10s"
  ].

(** Small buffer, everything else as in [configYml]. *)
Definition smallBufferYml : string :=
  unlines [
    "network:";
    "  interface: eth0";
    "queries:";
    "  buffer_size: 63"
  ].

(** No interface given; buffer size and intervals are in range. *)
Definition noInterfaceYml : string :=
  unlines [
    "events:";
    "  poll_interval: 1m";
    "queries:";
    "  buffer_size: 100";
    "  flush_interval: 10s"
  ].

Definition shortFlushYml : string :=
  unlines [
    "network:";
    "  interface: eth0";
    "queries:";
    "  flush_interval: 4s"
  ].

(** The scope file of the README. *)
Definition scopeYml : string :=
  unlines [
    "groups:";
    "  private_network:";
    "    networks:";
    "      - 10.0.0.0/8";
    "      - 192.168.0.0/16";
    "    exclude:";
    "      networks:";
    "        - 10.1.0.0/16";
    "        - 10.2.0.254";
    "      domains:";
    "        - " +:+ quoted "*.example.com";
    "        - " +:+ quoted "*.alphasoc.net";
    "        - " +:+ quoted "google.com";
    "  public_network:";
    "    networks:";
    "    - 131.1.0.0/16";
    "  my_own_group:";
    "    networks:";
    "    - 131.2.0.0/16";
    "    exclude:";
    "      domains:";
    "        - " +:+ quoted "site.net";
    "        - " +:+ quoted "*.internal.company.org"
  ].

Definition scopedConfigYml : string :=
  unlines [
    "network:";
    "  interface: eth0";
    "scope:";
    "  file: /etc/nfr/scope.yml"
  ].

(** A scope file with an inclusion entry that is a single address. *)
Definition badScopeYml : string :=
  unlines [
    "groups:";
    "  default:";
    "    networks:";
    "    - 10.0.0.1"
  ].

Definition installed : World :=
  world [(DefaultLocation, configYml);
         ("/etc/nfr/small.yml", smallBufferYml);
         ("/etc/nfr/noif.yml", noInterfaceYml);
         ("/etc/nfr/shortflush.yml", shortFlushYml);
         ("/etc/nfr/scoped.yml", scopedConfigYml);
         ("/etc/nfr/scope.yml", scopeYml)].

Definition badScope : World :=
  world [(DefaultLocation, scopedConfigYml);
         ("/etc/nfr/scope.yml", badScopeYml)].

(** A host without any configuration file. *)
Definition bare : World := world [].
End Sample.

(** * Vocabulary of the statements *)

(** The same configuration with another buffer size, poll interval or
    flush interval. *)
Definition withBufferSize (n : Z) (c : Config) : Config :=
  Sample.setQueries
    (mkQueries n (FlushInterval (Queries c)) (Failed (Queries c))) c.
Definition withPollInterval (d : Z) (c : Config) : Config :=
  Sample.setEvents (mkEvents (EventsFile (Events c)) d) c.
Definition withFlushInterval (d : Z) (c : Config) : Config :=
  Sample.setQueries
    (mkQueries (BufferSize (Queries c)) d (Failed (Queries c))) c.

(** The group that the constant [defaultScope] spells out. *)
Definition defaultGroup : GroupT :=
  mkGroup ["10.0.0.0/8"; "192.168.0.0/16"; "172.16.0.0/12"; "fc00::/7"]
          (mkExclude [] ["*.arpa"; "*.lan"; "*.local"; "*.internal"]).
Definition defaultGroups : gmap string GroupT := {[ "default" := defaultGroup ]}.

(** The criterion for the entries of one group, as the specification words
    it: inclusion networks are CIDR, exclude networks are CIDR or a single
    IP, exclude domains are domain names as written or without a leading
    [*.].  It is compared with [validateScopeConfig] below. *)
Definition entriesValid (W : World) (g : GroupT) : Prop :=
  Forall (fun n => is_Some (ParseCIDR W n)) (Networks g) /\
  Forall (fun n => is_Some (ParseCIDR W n) \/ is_Some (ParseIP W n))
         (ExcludeNetworks (Exclude g)) /\
  Forall (fun d => IsDomainName W d = true \/
                   IsDomainName W (TrimPrefix d "*.") = true)
         (ExcludeDomains (Exclude g)).

Definition scopeValid (W : World) (cfg : Config) : Prop :=
  forall name g, Groups (ScopeConfig cfg) !! name = Some g -> entriesValid W g.

(** The groups of the README's scope file, in the order of the file, and
    a configuration that holds them. *)
Definition readmeOrder : list (string * GroupT) :=
  [("private_network",
    mkGroup ["10.0.0.0/8"; "192.168.0.0/16"]
            (mkExclude ["10.1.0.0/16"; "10.2.0.254"]
                       ["*.example.com"; "*.alphasoc.net"; "google.com"]));
   ("public_network", mkGroup ["131.1.0.0/16"] (mkExclude [] []));
   ("my_own_group",
    mkGroup ["131.2.0.0/16"]
            (mkExclude [] ["site.net"; "*.internal.company.org"]))].
Definition readmeConfig : Config :=
  withGroups zeroConfig (list_to_map readmeOrder).

(** The scenario of the specification: one group, default, with the
    inclusion network 10.0.0.0/8 and the exclude domain [*.local]. *)
Definition ipv4 (a b c d : Z) : IP := IPv4 (((a * 256 + b) * 256 + c) * 256 + d).
Definition scenarioGroups : gmap string Resolver.Group :=
  {[ "default" :=
       Resolver.mkGroup [mkIPNet (ipv4 10 0 0 0) 8] []
                        [Resolver.parsePattern "*.local"] ]}.

(** Two groups over the same network, one of which excludes the host
    10.1.2.3. *)
Definition overlappingGroups : gmap string Resolver.Group :=
  {[ "strict" :=
       Resolver.mkGroup [mkIPNet (ipv4 10 0 0 0) 8]
                        [Resolver.EntryIP (ipv4 10 1 2 3)] [];
     "lenient" :=
       Resolver.mkGroup [mkIPNet (ipv4 10 0 0 0) 8] [] [] ]}.

(** [n] queries from one host, numbered by their timestamps. *)
Definition sampleQueries (first n : nat) : list Pipeline.Query :=
  map (fun i => Pipeline.mkQuery (Z.of_nat i) (ipv4 10 1 2 3) "A" "a.com")
      (seq first n).

(** A flusher whose store holds two failed batches, and a remote client
    that accepts every call with an even number. *)
Definition sampleFlusher : Pipeline.Flusher :=
  Pipeline.mkFlusher true
    [Pipeline.mkFailedBatch 3 (sampleQueries 0 2);
     Pipeline.mkFailedBatch 5 (sampleQueries 2 1)]
    6 10 [].
Definition evenCalls (n : nat) (b : Pipeline.QueryBatch) : bool := Nat.even n.

(** What [validateFilename] asks of the file system: the directory of
    the path is a directory, and the path itself is a regular file or
    does not exist yet. *)
Definition creatable (W : World) (file : string) : Prop :=
  Stat W (path_Dir W file) = StatInfo ModeDir /\
  (Stat W file = StatInfo ModeRegular \/
   exists cause, Stat W file = StatFail true cause).

Definition isConsole (file : string) : Prop :=
  file = "stdout" \/ file = "stderr".

(** The assignments of [setDefaults] up to its last statement, the call
    of [loadScopeConfig]. *)
Definition fieldDefaults (W : World) (cfg : Config) : Config :=
  {| Alphasoc :=
       mkAlphasoc (orDefault (Host (Alphasoc cfg)) "https://api.alphasoc.net")
                  (APIKey (Alphasoc cfg));
     Network :=
       mkNetwork (Interface (Network cfg))
                 (if Nat.eqb (length (Protocols (Network cfg))) 0
                  then ["udp"] else Protocols (Network cfg))
                 (orDefaultZ (Port (Network cfg)) 53);
     Log :=
       mkLog (orDefault (LogFile (Log cfg)) "stdout")
             (orDefault (Level (Log cfg)) "info");
     Data :=
       mkData (if isEmpty (DataFile (Data cfg))
               then if bool_decide (GOOS W = "windows")
                    then path_Join W (Getenv W "APPDATA") "nfr.data"
                    else path_Join W "/run" "nfr.data"
               else DataFile (Data cfg));
     Scope := Scope cfg;
     ScopeConfig := ScopeConfig cfg;
     Events :=
       mkEvents (orDefault (EventsFile (Events cfg)) "stderr")
                (orDefaultZ (PollInterval (Events cfg)) (5 * Minute));
     Queries :=
       mkQueries (orDefaultZ (BufferSize (Queries cfg)) 65535)
                 (orDefaultZ (FlushInterval (Queries cfg)) (30 * Second))
                 (Failed (Queries cfg)) |}.

(** Ascending order of a list of strings, as [sort.Strings] leaves it. *)
Definition ascending (l : list string) : Prop :=
  Sorted (fun a b => String.leb a b = true) l.

(** The error of one group names an entry of that group which the parsers
    refuse. *)
Definition namesBadEntry (W : World) (g : GroupT) (e : error) : Prop :=
  match e with
  | ErrNotCIDR n => n ∈ Networks g /\ ParseCIDR W n = None
  | ErrNotCIDRNorIP n =>
      n ∈ ExcludeNetworks (Exclude g) /\ ParseCIDR W n = None /\ ParseIP W n = None
  | ErrNotDomainName d =>
      d ∈ ExcludeDomains (Exclude g) /\ IsDomainName W d = false /\
      IsDomainName W (TrimPrefix d "*.") = false
  | _ => False
  end.

(** The key the client holds after the first lines of [register]: the
    key of the command line, else the key of the configuration, else the
    one it held. *)
Definition firstKey (cfg : Config) (clientKey key : string) : string :=
  if negb (isEmpty key) then key
  else if negb (isEmpty (APIKey (Alphasoc cfg))) then APIKey (Alphasoc cfg)
       else clientKey.

(** The events that talk to the user or only set the key of the client. *)
Definition isQuiet {Details : Type} (ev : @Event Details) : Prop :=
  match ev with
  | SetKey _ | AskStatus | Print _ => True
  | _ => False
  end.

(** Where [register] saves the configuration. *)
Definition savePath (configPath : string) : string :=
  if isEmpty configPath then DefaultLocation else configPath.

(** A sample encoder for the configuration file, in the block style that
    the sample decoder reads: unset fields are left out, durations are
    written in nanoseconds, the scope groups are not written. *)
Definition yamlField (indent name value : string) : list string :=
  if isEmpty value then [] else [indent +:+ name +:+ ": " +:+ value].
Definition yamlNumber (indent name : string) (n : Z) : list string :=
  if n =? 0 then [] else [indent +:+ name +:+ ": " +:+ pretty n].
Definition yamlBlock (name : string) (body : list string) : list string :=
  match body with
  | [] => []
  | _ => (name +:+ ":") :: body
  end.

Definition sampleMarshal (cfg : Config) : string :=
  unlines
    (yamlBlock "alphasoc"
       (yamlField "  " "host" (Host (Alphasoc cfg)) ++
        yamlField "  " "api_key" (APIKey (Alphasoc cfg))) ++
     yamlBlock "network"
       (yamlField "  " "interface" (Interface (Network cfg)) ++
        yamlBlock "  protocols" (map (fun p => "  - " +:+ p) (Protocols (Network cfg))) ++
        yamlNumber "  " "port" (Port (Network cfg))) ++
     yamlBlock "log"
       (yamlField "  " "file" (LogFile (Log cfg)) ++
        yamlField "  " "level" (Level (Log cfg))) ++
     yamlBlock "data" (yamlField "  " "file" (DataFile (Data cfg))) ++
     yamlBlock "scope" (yamlField "  " "file" (ScopeFile (Scope cfg))) ++
     yamlBlock "events"
       (yamlField "  " "file" (EventsFile (Events cfg)) ++
        yamlNumber "  " "poll_interval" (PollInterval (Events cfg))) ++
     yamlBlock "queries"
       (yamlNumber "  " "buffer_size" (BufferSize (Queries cfg)) ++
        yamlNumber "  " "flush_interval" (FlushInterval (Queries cfg)) ++
        yamlBlock "  failed"
          (yamlField "    " "file" (FailedFile (Failed (Queries cfg)))))).

(** Sample services: an API that knows whether the account is registered
    and hands out one new key, a user called Joey, and a file system that
    can or cannot be written. *)
Definition sampleServices (registered writable : bool) : @Services string :=
  {| yamlMarshal := fun cfg => inl (sampleMarshal cfg);
     WriteFile := fun _ _ => if writable then None else Some "permission denied";
     MkdirAll := fun _ => if writable then None else Some "permission denied";
     filepath_Dir := Sample.sampleDir;
     AccountStatus := fun k => if isEmpty k then inr "no api key" else inl registered;
     KeyRequest := fun _ => inl "new-key";
     AccountRegister := fun k _ => if isEmpty k then Some "no api key" else None;
     GetAccountRegisterDetails := inl "Joey" |}.

(** The configuration that [New] returns on the installed sample host, a
    copy of it as [Save] writes it, and the host with that copy. *)
Definition installedConfig : Config :=
  {| Alphasoc := mkAlphasoc "https://api.alphasoc.net" "";
     Network := mkNetwork "eth0" ["tcp"; "udp"] 53;
     Log := mkLog "stdout" "info";
     Data := mkData "/run/nfr.data";
     Scope := mkScope "";
     ScopeConfig := mkScopeConfig defaultGroups;
     Events := mkEvents "stderr" (5 * Minute);
     Queries := mkQueries 100 (10 * Second) (mkFailed "") |}.
Definition withCopy : World :=
  Sample.world [(DefaultLocation, Sample.configYml);
                ("/etc/nfr/copy.yml", sampleMarshal (withAPIKey "new-key" installedConfig))].

(** The four errors about the file system, those of [validateFilename]. *)
Definition isFileError (e : error) : Prop :=
  match e with
  | ErrCantStatDir _ _ | ErrNotDirectory _ | ErrNotRegular _
  | ErrCantStatFile _ _ => True
  | _ => False
  end.

(** * Package [config]: defaults and validation *)

Lemma andThen_None (a b : goerror) :
  a ;;; b = None <-> a = None /\ b = None.
Proof. destruct a; simpl; intuition congruence. Qed.

Lemma andThen_Some (a b : goerror) (e : error) :
  a ;;; b = Some e -> a = Some e \/ (a = None /\ b = Some e).
Proof. destruct a; simpl; intuition. Qed.

Lemma failWhen_None (c : bool) (e : error) :
  failWhen c e = None <-> c = false.
Proof. destruct c; simpl; intuition congruence. Qed.

Lemma failWhen_Some (c : bool) (e e' : error) :
  failWhen c e = Some e' -> c = true /\ e' = e.
Proof. destruct c; simpl; intros [=]; auto. Qed.

Lemma wrapConfig_Some (r : goerror) (e : error) :
  wrapConfig r = Some e -> exists e', e = ErrWrapConfig e'.
Proof. destruct r; simpl; intros [=]; eauto. Qed.

Lemma validateFilename_Some (W : World) file flag e :
  validateFilename W file flag = Some e -> isFileError e.
Proof.
  unfold validateFilename.
  destruct (_ && _); [discriminate |].
  destruct (Stat W (path_Dir W file)) as [mode | ne cause]; [| intros [= <-]; exact I].
  destruct (negb (IsDir mode)); [intros [= <-]; exact I |].
  destruct (Stat W file) as [fmode | ne cause].
  - destruct (negb (IsRegular fmode)); [intros [= <-]; exact I | discriminate].
  - destruct (negb ne); [intros [= <-]; exact I | discriminate].
Qed.

Lemma validateProtocols_Some (protos : list string) e :
  validateProtocols protos = Some e -> exists p, e = ErrInvalidProtocol p.
Proof.
  induction protos as [| p rest IH]; simpl; [discriminate |].
  destruct (_ && _); [intros [= <-]; eauto | exact IH].
Qed.

(** [loadScopeConfig] writes the groups and nothing else. *)
Lemma loadScopeConfig_groups_only (W : World) cfg :
  exists gs, fst (loadScopeConfig W cfg) = withGroups cfg gs.
Proof.
  unfold loadScopeConfig.
  assert (Hid : cfg = withGroups cfg (Groups (ScopeConfig cfg)))
    by (destruct cfg as [? ? ? ? ? [?] ? ?]; reflexivity).
  destruct (if isEmpty _ then _ else _) as [content | cause];
    [| exists (Groups (ScopeConfig cfg)); exact Hid].
  destruct (yamlScope W content) as [groups | cause];
    [| exists (Groups (ScopeConfig cfg)); exact Hid].
  eexists; reflexivity.
Qed.

Lemma setDefaults_Queries (W : World) cfg :
  Queries (setDefaults W cfg) =
  mkQueries (orDefaultZ (BufferSize (Queries cfg)) 65535)
            (orDefaultZ (FlushInterval (Queries cfg)) (30 * Second))
            (Failed (Queries cfg)).
Proof.
  unfold setDefaults.
  match goal with |- context [loadScopeConfig W ?c] =>
    destruct (loadScopeConfig_groups_only W c) as [gs ->] end.
  reflexivity.
Qed.

Lemma setDefaults_Events (W : World) cfg :
  Events (setDefaults W cfg) =
  mkEvents (orDefault (EventsFile (Events cfg)) "stderr")
           (orDefaultZ (PollInterval (Events cfg)) (5 * Minute)).
Proof.
  unfold setDefaults.
  match goal with |- context [loadScopeConfig W ?c] =>
    destruct (loadScopeConfig_groups_only W c) as [gs ->] end.
  reflexivity.
Qed.

Lemma setDefaults_Interface (W : World) cfg :
  Interface (Network (setDefaults W cfg)) = Interface (Network cfg).
Proof.
  unfold setDefaults.
  match goal with |- context [loadScopeConfig W ?c] =>
    destruct (loadScopeConfig_groups_only W c) as [gs ->] end.
  reflexivity.
Qed.

(** What [Read] went through when it hands out a configuration. *)
Lemma Read_Some (W : World) file cfg err :
  Read W file = (Some cfg, err) ->
  exists content decoded loaded,
    ReadFile W file = inl content /\
    yamlConfig W content = inl decoded /\
    loadScopeConfig W (withGroups decoded ∅) = (loaded, None) /\
    cfg = sortProtocols (setDefaults W loaded) /\
    err = validate W cfg.
Proof.
  unfold Read.
  destruct (ReadFile W file) as [content | cause] eqn:Hr; [| discriminate].
  destruct (yamlConfig W content) as [decoded | cause] eqn:Hy; [| discriminate].
  change (Groups (ScopeConfig zeroConfig)) with (∅ : gmap string GroupT).
  destruct (loadScopeConfig W (withGroups decoded ∅)) as [loaded [e |]] eqn:Hl;
    [discriminate |].
  intros [= <- <-]. exists content, decoded, loaded. auto.
Qed.

(** [Read] never returns a [nil] configuration with a [nil] error. *)
Lemma Read_None (W : World) file err :
  Read W file = (None, err) -> err <> None.
Proof.
  unfold Read.
  destruct (ReadFile W file) as [content | cause]; [| intros [= <-]; discriminate].
  destruct (yamlConfig W content) as [decoded | cause]; [| intros [= <-]; discriminate].
  destruct (loadScopeConfig W _) as [loaded [e |]];
    [intros [= <-]; discriminate | discriminate].
Qed.

(** One site of [validate] that returned the error in [H]: either it is
    not the error looked for, or its condition is left in [H]. *)
Ltac error_site H :=
  first
    [ apply failWhen_Some in H; destruct H as [H ?];
      first [discriminate | idtac]
    | apply validateProtocols_Some in H; destruct H as [? ?]; discriminate
    | apply wrapConfig_Some in H; destruct H as [? ?]; discriminate
    | apply validateFilename_Some in H; contradiction
    | match type of H with
      | match ?x with _ => _ end = _ => destruct x; first [discriminate | error_site H]
      | (if ?x then _ else _) = _ => destruct x; first [discriminate | error_site H]
      end ].

(** Walk down the checks of [validate] to the one that returned [H]. *)
Ltac error_chain H :=
  repeat (apply andThen_Some in H; destruct H as [H | [_ H]]; [error_site H |]);
  try error_site H.

Lemma validate_ErrBufferSize (W : World) cfg :
  validate W cfg = Some ErrBufferSize -> BufferSize (Queries cfg) < 64.
Proof.
  unfold validate. intros H. error_chain H.
  now apply Z.ltb_lt.
Qed.

Lemma validate_ErrPollInterval (W : World) cfg :
  validate W cfg = Some ErrPollInterval -> PollInterval (Events cfg) < 5 * Second.
Proof.
  unfold validate. intros H. error_chain H.
  now apply Z.ltb_lt.
Qed.

Lemma validate_ErrFlushInterval (W : World) cfg :
  validate W cfg = Some ErrFlushInterval -> FlushInterval (Queries cfg) < 5 * Second.
Proof.
  unfold validate. intros H. error_chain H.
  now apply Z.ltb_lt.
Qed.

Lemma validate_ErrEmptyInterface (W : World) cfg :
  Interface (Network cfg) = "" -> validate W cfg = Some ErrEmptyInterface.
Proof. unfold validate. intros ->. reflexivity. Qed.

(** The three numeric bounds are necessary for [validate] to pass. *)
Lemma validate_None_bounds (W : World) cfg :
  validate W cfg = None ->
  5 * Second <= PollInterval (Events cfg) /\
  64 <= BufferSize (Queries cfg) /\
  5 * Second <= FlushInterval (Queries cfg).
Proof.
  unfold validate. rewrite !andThen_None, !failWhen_None.
  intros (_ & _ & _ & _ & _ & _ & _ & _ & _ & _ & Hp & Hb & Hf & _).
  apply Z.ltb_ge in Hp, Hb, Hf. auto.
Qed.

(** [validate] reads the buffer size in one check only: a configuration
    that passes with some buffer size passes with any size of at least 64. *)
Lemma validate_change_buffer (W : World) cfg n :
  validate W (withBufferSize n cfg) = None ->
  64 <= BufferSize (Queries cfg) ->
  validate W cfg = None.
Proof.
  unfold validate, withBufferSize; simpl.
  rewrite !andThen_None, !failWhen_None.
  intros (? & ? & ? & ? & ? & ? & ? & ? & ? & ? & ? & _ & ? & ?) Hb.
  repeat split; try assumption. now apply Z.ltb_ge.
Qed.

Lemma validate_change_poll (W : World) cfg d :
  validate W (withPollInterval d cfg) = None ->
  5 * Second <= PollInterval (Events cfg) ->
  validate W cfg = None.
Proof.
  unfold validate, withPollInterval; simpl.
  rewrite !andThen_None, !failWhen_None.
  intros (? & ? & ? & ? & ? & ? & ? & ? & ? & ? & _ & ? & ? & ?) Hb.
  repeat split; try assumption. now apply Z.ltb_ge.
Qed.

Lemma validate_change_flush (W : World) cfg d :
  validate W (withFlushInterval d cfg) = None ->
  5 * Second <= FlushInterval (Queries cfg) ->
  validate W cfg = None.
Proof.
  unfold validate, withFlushInterval; simpl.
  rewrite !andThen_None, !failWhen_None.
  intros (? & ? & ? & ? & ? & ? & ? & ? & ? & ? & ? & ? & _ & ?) Hb.
  repeat split; try assumption. now apply Z.ltb_ge.
Qed.

Lemma Read_decoded_fields (W : World) file cfg err :
  Read W file = (Some cfg, err) ->
  exists content decoded,
    ReadFile W file = inl content /\
    yamlConfig W content = inl decoded /\
    Queries cfg =
      mkQueries (orDefaultZ (BufferSize (Queries decoded)) 65535)
                (orDefaultZ (FlushInterval (Queries decoded)) (30 * Second))
                (Failed (Queries decoded)) /\
    Events cfg =
      mkEvents (orDefault (EventsFile (Events decoded)) "stderr")
               (orDefaultZ (PollInterval (Events decoded)) (5 * Minute)) /\
    err = validate W cfg.
Proof.
  intros H. apply Read_Some in H.
  destruct H as (content & decoded & loaded & Hr & Hy & Hl & -> & ->).
  exists content, decoded. split; [exact Hr |]. split; [exact Hy |].
  destruct (loadScopeConfig_groups_only W (withGroups decoded ∅)) as [gs Hgs].
  rewrite Hl in Hgs. simpl in Hgs. subst loaded.
  split; [| split; [| reflexivity]].
  - change (Queries (sortProtocols ?c)) with (Queries c).
    now rewrite setDefaults_Queries.
  - change (Events (sortProtocols ?c)) with (Events c).
    now rewrite setDefaults_Events.
Qed.

(** C7, as the claim states it, fails: a configuration file that sets no
    network interface and a buffer size of 100 is rejected by validation
    although its buffer size is not below 64. *)
Lemma C7_exactly_when_counterexample :
  ~ (forall cfg err,
        Read Sample.installed "/etc/nfr/noif.yml" = (Some cfg, err) ->
        (err <> None <-> BufferSize (Queries cfg) < 64)).
Proof.
  intros H.
  assert (Hb : match fst (Read Sample.installed "/etc/nfr/noif.yml") with
               | Some c => BufferSize (Queries c)
               | None => 0
               end = 100) by (vm_compute; reflexivity).
  assert (He : snd (Read Sample.installed "/etc/nfr/noif.yml")
               = Some ErrEmptyInterface) by (vm_compute; reflexivity).
  destruct (Read Sample.installed "/etc/nfr/noif.yml") as [[cfg |] err];
    simpl in Hb, He; [| discriminate].
  destruct (H cfg err eq_refl) as [Himp _].
  assert (Hlt : BufferSize (Queries cfg) < 64)
    by (apply Himp; rewrite He; discriminate).
  lia.
Qed.

(** C7 (amended).  For every configuration read from a file: an unset
    (zero) [Queries.BufferSize] becomes 65535 and any other value is kept;
    validation returns an error whenever the resulting buffer size is less
    than 64, it returns the buffer-size error only then, and when the rest
    of the configuration passes validation it returns an error exactly
    when the buffer size is less than 64. *)
Theorem C7_buffer_size_default_and_minimum (W : World) file cfg err :
  Read W file = (Some cfg, err) ->
  (exists content decoded,
      ReadFile W file = inl content /\ yamlConfig W content = inl decoded /\
      BufferSize (Queries cfg) =
        if BufferSize (Queries decoded) =? 0 then 65535
        else BufferSize (Queries decoded)) /\
  err = validate W cfg /\
  (BufferSize (Queries cfg) < 64 -> err <> None) /\
  (err = Some ErrBufferSize -> BufferSize (Queries cfg) < 64) /\
  (forall n, validate W (withBufferSize n cfg) = None ->
             (err <> None <-> BufferSize (Queries cfg) < 64)).
Proof.
  intros H.
  destruct (Read_decoded_fields W file cfg err H)
    as (content & decoded & Hr & Hy & Hq & _ & ->).
  split; [exists content, decoded; rewrite Hq; auto |].
  split; [reflexivity |].
  split; [| split].
  - intros Hlt Hnone. apply validate_None_bounds in Hnone. lia.
  - apply validate_ErrBufferSize.
  - intros n Hn. split.
    + intros Herr. destruct (Z.lt_ge_cases (BufferSize (Queries cfg)) 64) as [? | Hge];
        [assumption |].
      exfalso. apply Herr. now apply validate_change_buffer with n.
    + intros Hlt Hnone. apply validate_None_bounds in Hnone. lia.
Qed.

Lemma C7_buffer_size_witness :
  exists cfg err,
    Read Sample.installed "/etc/nfr/small.yml" = (Some cfg, err) /\
    BufferSize (Queries cfg) < 64 /\ err <> None.
Proof.
  assert (Hb : match fst (Read Sample.installed "/etc/nfr/small.yml") with
               | Some c => BufferSize (Queries c)
               | None => 0
               end = 63) by (vm_compute; reflexivity).
  destruct (Read Sample.installed "/etc/nfr/small.yml") as [[cfg |] err] eqn:E;
    simpl in Hb; [| discriminate].
  exists cfg, err.
  assert (Hlt : BufferSize (Queries cfg) < 64) by lia.
  split; [reflexivity |]. split; [exact Hlt |].
  exact (proj1 (proj2 (proj2
           (C7_buffer_size_default_and_minimum Sample.installed _ cfg err E))) Hlt).
Defined.

(** C8, as the claim states it, fails: the same configuration file without
    a network interface has a poll interval of one minute and a flush
    interval of ten seconds, and validation still returns an error. *)
Lemma C8_exactly_when_counterexample :
  ~ (forall cfg err,
        Read Sample.installed "/etc/nfr/noif.yml" = (Some cfg, err) ->
        (err <> None <->
         PollInterval (Events cfg) < 5 * Second \/
         FlushInterval (Queries cfg) < 5 * Second)).
Proof.
  intros H.
  assert (Hb : match fst (Read Sample.installed "/etc/nfr/noif.yml") with
               | Some c => (PollInterval (Events c), FlushInterval (Queries c))
               | None => (0, 0)
               end = (60 * Second, 10 * Second)) by (vm_compute; reflexivity).
  assert (He : snd (Read Sample.installed "/etc/nfr/noif.yml")
               = Some ErrEmptyInterface) by (vm_compute; reflexivity).
  destruct (Read Sample.installed "/etc/nfr/noif.yml") as [[cfg |] err];
    simpl in Hb, He; [| discriminate].
  injection Hb as Hp Hf.
  destruct (H cfg err eq_refl) as [Himp _].
  assert (Hlt : PollInterval (Events cfg) < 5 * Second \/
                FlushInterval (Queries cfg) < 5 * Second)
    by (apply Himp; rewrite He; discriminate).
  rewrite Hp, Hf in Hlt. unfold Second, Nanosecond in Hlt. lia.
Qed.

(** C8 (amended).  For every configuration read from a file: an unset
    (zero) [FlushInterval] becomes 30 seconds and an unset [PollInterval]
    becomes 5 minutes, other values are kept; validation returns an error
    whenever either resulting interval is less than 5 seconds, it returns
    the poll-interval (flush-interval) error only when that interval is
    less than 5 seconds, and when the rest of the configuration passes
    validation it returns an error exactly when either interval is less
    than 5 seconds. *)
Theorem C8_interval_defaults_and_minimum (W : World) file cfg err :
  Read W file = (Some cfg, err) ->
  (exists content decoded,
      ReadFile W file = inl content /\ yamlConfig W content = inl decoded /\
      FlushInterval (Queries cfg) =
        (if FlushInterval (Queries decoded) =? 0 then 30 * Second
         else FlushInterval (Queries decoded)) /\
      PollInterval (Events cfg) =
        (if PollInterval (Events decoded) =? 0 then 5 * Minute
         else PollInterval (Events decoded))) /\
  err = validate W cfg /\
  (PollInterval (Events cfg) < 5 * Second \/
   FlushInterval (Queries cfg) < 5 * Second -> err <> None) /\
  (err = Some ErrPollInterval -> PollInterval (Events cfg) < 5 * Second) /\
  (err = Some ErrFlushInterval -> FlushInterval (Queries cfg) < 5 * Second) /\
  (forall p f,
      validate W (withPollInterval p (withFlushInterval f cfg)) = None ->
      (err <> None <->
       PollInterval (Events cfg) < 5 * Second \/
       FlushInterval (Queries cfg) < 5 * Second)).
Proof.
  intros H.
  destruct (Read_decoded_fields W file cfg err H)
    as (content & decoded & Hr & Hy & Hq & He & ->).
  split; [exists content, decoded; rewrite Hq, He; auto |].
  split; [reflexivity |].
  assert (Hnec : PollInterval (Events cfg) < 5 * Second \/
                 FlushInterval (Queries cfg) < 5 * Second ->
                 validate W cfg <> None).
  { intros Hlt Hnone. apply validate_None_bounds in Hnone. lia. }
  split; [exact Hnec |].
  split; [apply validate_ErrPollInterval |].
  split; [apply validate_ErrFlushInterval |].
  intros p f Hpf. split; [| exact Hnec].
  intros Herr.
  destruct (Z.lt_ge_cases (PollInterval (Events cfg)) (5 * Second)) as [? | Hp];
    [now left |].
  destruct (Z.lt_ge_cases (FlushInterval (Queries cfg)) (5 * Second)) as [? | Hf];
    [now right |].
  exfalso. apply Herr.
  apply validate_change_flush with f; [| exact Hf].
  apply validate_change_poll with p; [exact Hpf | exact Hp].
Qed.

Lemma C8_interval_witness :
  exists cfg err,
    Read Sample.installed "/etc/nfr/shortflush.yml" = (Some cfg, err) /\
    FlushInterval (Queries cfg) = 4 * Second /\ err <> None.
Proof.
  assert (Hb : match fst (Read Sample.installed "/etc/nfr/shortflush.yml") with
               | Some c => FlushInterval (Queries c)
               | None => 0
               end = 4 * Second) by (vm_compute; reflexivity).
  destruct (Read Sample.installed "/etc/nfr/shortflush.yml") as [[cfg |] err] eqn:E;
    simpl in Hb; [| discriminate].
  exists cfg, err.
  split; [reflexivity |]. split; [exact Hb |].
  apply (proj1 (proj2 (proj2
           (C8_interval_defaults_and_minimum Sample.installed _ cfg err E)))).
  right. rewrite Hb. reflexivity.
Defined.

(** C10.  [New] with an empty path on a host where the default location
    cannot be stat'ed returns the defaults-only configuration and a nil
    error; that configuration has an empty network interface, which
    [validate] would reject, so validation has not been applied.  In every
    other case [New] is [Read], and the error [Read] returns next to a
    configuration is the result of [validate] on it. *)
Theorem C10_New_without_file_skips_validation (W : World) :
  (forall notExist cause,
      Stat W DefaultLocation = StatFail notExist cause ->
      New W "" = (Some (setDefaults W zeroConfig), None) /\
      Interface (Network (setDefaults W zeroConfig)) = "" /\
      validate W (setDefaults W zeroConfig) = Some ErrEmptyInterface) /\
  (forall file, file <> "" -> New W file = Read W file) /\
  (forall mode, Stat W DefaultLocation = StatInfo mode ->
                New W "" = Read W DefaultLocation) /\
  (forall file cfg err, Read W file = (Some cfg, err) -> err = validate W cfg).
Proof.
  split; [| split; [| split]].
  - intros ne cause Hstat.
    assert (Hi : Interface (Network (setDefaults W zeroConfig)) = "")
      by (rewrite setDefaults_Interface; reflexivity).
    split; [| split; [exact Hi | now apply validate_ErrEmptyInterface]].
    unfold New. simpl. now rewrite Hstat.
  - intros file Hfile. unfold New, isEmpty.
    rewrite bool_decide_eq_false_2 by exact Hfile. reflexivity.
  - intros mode Hstat. unfold New. simpl. now rewrite Hstat.
  - intros file cfg err H. apply Read_Some in H.
    destruct H as (_ & _ & _ & _ & _ & _ & _ & H). exact H.
Qed.

Lemma C10_New_without_file_witness :
  Stat Sample.bare DefaultLocation = StatFail true "no such file or directory" /\
  New Sample.bare "" = (Some (setDefaults Sample.bare zeroConfig), None) /\
  validate Sample.bare (setDefaults Sample.bare zeroConfig) = Some ErrEmptyInterface.
Proof.
  assert (Hs : Stat Sample.bare DefaultLocation
               = StatFail true "no such file or directory") by reflexivity.
  split; [exact Hs |].
  destruct (proj1 (C10_New_without_file_skips_validation Sample.bare) _ _ Hs)
    as (Hnew & _ & Hval).
  split; [exact Hnew | exact Hval].
Defined.

(** * Validation of the scope groups *)

Lemma validateNetworks_None (W : World) ns :
  validateNetworks W ns = None <-> Forall (fun n => is_Some (ParseCIDR W n)) ns.
Proof.
  induction ns as [| n rest IH]; simpl.
  - split; [constructor | reflexivity].
  - rewrite Forall_cons. destruct (ParseCIDR W n) as [net |].
    + rewrite IH. split; [intros ?; split; [eexists; reflexivity | assumption] | tauto].
    + split; [discriminate | intros [[x Hx] _]; discriminate].
Qed.

Lemma validateExcludeNetworks_None (W : World) ns :
  validateExcludeNetworks W ns = None <->
  Forall (fun n => is_Some (ParseCIDR W n) \/ is_Some (ParseIP W n)) ns.
Proof.
  induction ns as [| n rest IH]; simpl.
  - split; [constructor | reflexivity].
  - rewrite Forall_cons.
    destruct (ParseCIDR W n) as [net |]; [| destruct (ParseIP W n) as [ip |]].
    + rewrite IH. split; [intros ?; split; [left; eexists; reflexivity | assumption] | tauto].
    + rewrite IH. split; [intros ?; split; [right; eexists; reflexivity | assumption] | tauto].
    + split; [discriminate | intros [[[x Hx] | [x Hx]] _]; discriminate].
Qed.

Lemma validateExcludeDomains_None (W : World) ds :
  validateExcludeDomains W ds = None <->
  Forall (fun d => IsDomainName W d = true \/
                   IsDomainName W (TrimPrefix d "*.") = true) ds.
Proof.
  induction ds as [| d rest IH]; simpl.
  - split; [constructor | reflexivity].
  - rewrite Forall_cons.
    destruct (IsDomainName W d); simpl;
      [| destruct (IsDomainName W (TrimPrefix d "*.")); simpl].
    + rewrite IH. tauto.
    + rewrite IH. tauto.
    + split; [discriminate | intros [[? | ?] _]; discriminate].
Qed.

Lemma validateGroup_None (W : World) g :
  validateGroup W g = None <-> entriesValid W g.
Proof.
  unfold validateGroup, entriesValid.
  rewrite !andThen_None, validateNetworks_None, validateExcludeNetworks_None,
    validateExcludeDomains_None.
  reflexivity.
Qed.

Lemma validateGroups_None (W : World) (groups : list (string * GroupT)) :
  validateGroups W groups = None <-> Forall (fun ng => entriesValid W (snd ng)) groups.
Proof.
  induction groups as [| [name g] rest IH]; simpl.
  - split; [constructor | reflexivity].
  - rewrite Forall_cons, andThen_None, validateGroup_None, IH. reflexivity.
Qed.

(** Whatever order the groups are visited in, the loop returns [nil]
    exactly for the maps that meet the criterion. *)
Lemma validateGroups_any_order (W : World) cfg (order : list (string * GroupT)) :
  order ≡ₚ map_to_list (Groups (ScopeConfig cfg)) ->
  (validateGroups W order = None <-> scopeValid W cfg).
Proof.
  intros Hperm. rewrite validateGroups_None, Hperm, Forall_forall.
  unfold scopeValid. split.
  - intros H name g Hg. apply (H (name, g)). now apply elem_of_map_to_list.
  - intros H [name g] Hin. apply (H name). now apply elem_of_map_to_list.
Qed.

Lemma validateScopeConfig_None (W : World) cfg :
  validateScopeConfig W cfg = None <-> scopeValid W cfg.
Proof. now apply validateGroups_any_order. Qed.

Lemma loadScopeConfig_valid (W : World) cfg cfg' :
  loadScopeConfig W cfg = (cfg', None) -> scopeValid W cfg'.
Proof.
  unfold loadScopeConfig.
  destruct (if isEmpty _ then _ else _) as [content | cause]; [| discriminate].
  destruct (yamlScope W content) as [groups | cause]; [| discriminate].
  intros [= <- H]. now apply validateScopeConfig_None.
Qed.

(** Loading the scope a second time, as [setDefaults] does after [Read]
    has loaded it, leaves the groups as they are. *)
Lemma loadScopeConfig_again (W : World) c c1 c' :
  loadScopeConfig W c = (c1, None) ->
  Scope c' = Scope c1 -> ScopeConfig c' = ScopeConfig c1 ->
  Groups (ScopeConfig (fst (loadScopeConfig W c'))) = Groups (ScopeConfig c1).
Proof.
  unfold loadScopeConfig. intros H Hs Hg.
  destruct (if isEmpty (ScopeFile (Scope c)) then _ else _)
    as [content | cause] eqn:Hc; [| discriminate].
  destruct (yamlScope W content) as [groups | cause] eqn:Hy; [| discriminate].
  cbv zeta in H.
  assert (Hc1 : c1 = withGroups c (groups ∪ Groups (ScopeConfig c))) by congruence.
  subst c1. rewrite Hs, Hg. simpl. rewrite Hc, Hy. simpl.
  now rewrite (assoc_L (∪)), (idemp_L (∪)).
Qed.

Lemma Read_scopeValid (W : World) file cfg err :
  Read W file = (Some cfg, err) -> scopeValid W cfg.
Proof.
  intros H. apply Read_Some in H.
  destruct H as (content & decoded & loaded & _ & _ & Hl & -> & _).
  pose proof (loadScopeConfig_valid W _ _ Hl) as Hvalid.
  unfold scopeValid in *.
  change (ScopeConfig (sortProtocols ?c)) with (ScopeConfig c).
  unfold setDefaults.
  erewrite loadScopeConfig_again; [exact Hvalid | exact Hl | reflexivity | reflexivity].
Qed.

(** Every entry of a validated group parses, so the resolver can be built. *)
Lemma buildGroup_valid (W : World) g :
  entriesValid W g -> is_Some (Resolver.buildGroup W g).
Proof.
  intros (Hn & He & _). unfold Resolver.buildGroup.
  destruct (mapM_is_Some_2 (ParseCIDR W) (Networks g)) as [incl ->].
  { eapply Forall_impl; [exact Hn | auto]. }
  destruct (mapM_is_Some_2 (Resolver.buildEntry W) (ExcludeNetworks (Exclude g)))
    as [excl ->].
  { eapply Forall_impl; [exact He |]. intros n Hor. unfold compose, Resolver.buildEntry. simpl in Hor.
    destruct (ParseCIDR W n); [eexists; reflexivity |].
    destruct (ParseIP W n); [eexists; reflexivity |].
    destruct Hor as [[? ?] | [? ?]]; discriminate. }
  eexists; reflexivity.
Qed.

Lemma buildResolver_valid (W : World) cfg :
  validateScopeConfig W cfg = None -> is_Some (Resolver.buildResolver W cfg).
Proof.
  unfold validateScopeConfig, Resolver.buildResolver.
  rewrite validateGroups_None. intros H.
  destruct (mapM_is_Some_2 (Resolver.buildNamed W)
              (map_to_list (Groups (ScopeConfig cfg)))) as [l ->].
  { eapply Forall_impl; [exact H |]. intros [name g] Hg.
    unfold compose, Resolver.buildNamed.
    destruct (buildGroup_valid W g Hg) as [x Hx]. simpl in *. rewrite Hx.
    eexists; reflexivity. }
  eexists; reflexivity.
Qed.

(** C4.  The loop of [validateScopeConfig], in whatever order it visits
    the groups, returns [nil] if and only if in every group every
    inclusion network parses as a CIDR, every exclude network parses as a
    CIDR or as a single IP, and every exclude domain is a domain name as
    written or after stripping a leading [*.].  A scope that violates this
    makes [Read] return an error and no configuration, so every
    configuration that [Read] hands out has a valid scope; and from a
    validated scope the resolver is always built, after which evaluation
    is a total boolean function. *)
Theorem C4_scope_validation (W : World) :
  (forall cfg order,
      order ≡ₚ map_to_list (Groups (ScopeConfig cfg)) ->
      (validateGroups W order = None <-> scopeValid W cfg)) /\
  (forall cfg, validateScopeConfig W cfg = None <-> scopeValid W cfg) /\
  (forall file content decoded,
      ReadFile W file = inl content -> yamlConfig W content = inl decoded ->
      ~ scopeValid W (fst (loadScopeConfig W (withGroups decoded ∅))) ->
      exists e, Read W file = (None, Some e)) /\
  (forall file cfg err, Read W file = (Some cfg, err) -> scopeValid W cfg) /\
  (forall cfg, validateScopeConfig W cfg = None ->
      exists groups, Resolver.buildResolver W cfg = Some groups /\
        forall ip fqdn, exists b, Resolver.IsInScope groups ip fqdn = b).
Proof.
  split; [exact (validateGroups_any_order W) |].
  split; [exact (validateScopeConfig_None W) |].
  split; [| split; [exact (Read_scopeValid W) |]].
  - intros file content decoded Hr Hy Hbad. unfold Read. rewrite Hr, Hy.
    change (Groups (ScopeConfig zeroConfig)) with (∅ : gmap string GroupT).
    destruct (loadScopeConfig W (withGroups decoded ∅)) as [loaded [e |]] eqn:Hl.
    + exists e. reflexivity.
    + exfalso. apply Hbad. simpl. now apply loadScopeConfig_valid with (withGroups decoded ∅).
  - intros cfg Hv. destruct (buildResolver_valid W cfg Hv) as [groups Hg].
    exists groups. split; [exact Hg |]. intros ip fqdn. eexists; reflexivity.
Qed.

Lemma C4_scope_validation_witness :
  readmeOrder ≡ₚ map_to_list (Groups (ScopeConfig readmeConfig)) /\
  validateGroups Sample.installed readmeOrder = None /\
  scopeValid Sample.installed readmeConfig.
Proof.
  assert (Hperm : readmeOrder ≡ₚ map_to_list (Groups (ScopeConfig readmeConfig))).
  { symmetry. apply map_to_list_to_map.
    apply (bool_decide_eq_true_1 (NoDup (readmeOrder.*1))). vm_compute. reflexivity. }
  assert (Hv : validateGroups Sample.installed readmeOrder = None)
    by (vm_compute; reflexivity).
  split; [exact Hperm |]. split; [exact Hv |].
  exact (proj1 (proj1 (C4_scope_validation Sample.installed)
                  readmeConfig readmeOrder Hperm) Hv).
Defined.

(** The sample decoder reads the README's scope file as [readmeOrder]. *)
Example readme_scope_decoded :
  yamlScope Sample.installed Sample.scopeYml = inl (list_to_map readmeOrder).
Proof. vm_compute. reflexivity. Qed.

(** A scope file whose inclusion entry is a single address is refused. *)
Example bad_scope_rejected :
  New Sample.badScope "" = (None, Some (ErrNotCIDR "10.0.0.1")).
Proof. vm_compute. reflexivity. Qed.

(** * The built-in scope *)

Lemma setDefaults_Scope (W : World) cfg :
  Scope (setDefaults W cfg) = Scope cfg.
Proof.
  unfold setDefaults.
  match goal with |- context [loadScopeConfig W ?c] =>
    destruct (loadScopeConfig_groups_only W c) as [gs ->] end.
  reflexivity.
Qed.

Section DefaultScope.
Context (W : World).

(** What the built-in scope asks of the libraries: the YAML decoder reads
    the constant as the group it spells out, [net.ParseCIDR] accepts its
    four networks and [utils.IsDomainName] the four names behind [*.]. *)
Hypothesis decode_default : yamlScope W defaultScope = inl defaultGroups.
Hypothesis cidr_default :
  Forall (fun n => is_Some (ParseCIDR W n))
         ["10.0.0.0/8"; "192.168.0.0/16"; "172.16.0.0/12"; "fc00::/7"].
Hypothesis names_default :
  Forall (fun d => IsDomainName W d = true) ["arpa"; "lan"; "local"; "internal"].

Lemma defaultGroup_valid : entriesValid W defaultGroup.
Proof.
  unfold entriesValid, defaultGroup; simpl.
  split; [exact cidr_default |]. split; [constructor |].
  repeat match goal with
         | H : Forall _ (_ :: _) |- _ => apply Forall_cons in H; destruct H
         end.
  repeat (constructor; [right; assumption |]). constructor.
Qed.

Lemma defaultGroups_valid cfg :
  Groups (ScopeConfig cfg) = defaultGroups -> validateScopeConfig W cfg = None.
Proof.
  intros Hg. apply validateScopeConfig_None. intros name g. rewrite Hg.
  unfold defaultGroups. intros [_ <-]%lookup_singleton_Some.
  exact defaultGroup_valid.
Qed.

Lemma loadScopeConfig_default cfg :
  ScopeFile (Scope cfg) = "" ->
  Groups (ScopeConfig cfg) = ∅ \/ Groups (ScopeConfig cfg) = defaultGroups ->
  loadScopeConfig W cfg = (withGroups cfg defaultGroups, None).
Proof.
  intros Hfile Hgroups. unfold loadScopeConfig. rewrite Hfile. simpl.
  rewrite decode_default.
  assert (Hu : defaultGroups ∪ Groups (ScopeConfig cfg) = defaultGroups).
  { destruct Hgroups as [-> | ->];
      [apply (right_id_L ∅ (∪)) | apply (idemp_L (∪))]. }
  cbv zeta. rewrite Hu. f_equal. now apply defaultGroups_valid.
Qed.

End DefaultScope.

(** C9.  In a world whose YAML decoder reads the constant [defaultScope]
    as it is written and whose parsers accept its entries: when no scope
    file is configured, [loadScopeConfig] returns [nil] and leaves exactly
    one group, named default, with the inclusion networks 10.0.0.0/8,
    192.168.0.0/16, 172.16.0.0/12 and fc00::/7, the exclude domains
    *.arpa, *.lan, *.local and *.internal and no exclude network; this
    scope passes [validateScopeConfig]; and it is the scope of the
    configurations that [New] and [Read] return without a scope file. *)
Theorem C9_default_scope (W : World) :
  yamlScope W defaultScope = inl defaultGroups ->
  Forall (fun n => is_Some (ParseCIDR W n))
         ["10.0.0.0/8"; "192.168.0.0/16"; "172.16.0.0/12"; "fc00::/7"] ->
  Forall (fun d => IsDomainName W d = true) ["arpa"; "lan"; "local"; "internal"] ->
  (forall cfg,
      ScopeFile (Scope cfg) = "" ->
      Groups (ScopeConfig cfg) = ∅ \/ Groups (ScopeConfig cfg) = defaultGroups ->
      exists cfg',
        loadScopeConfig W cfg = (cfg', None) /\
        map_to_list (Groups (ScopeConfig cfg')) =
          [("default",
            mkGroup ["10.0.0.0/8"; "192.168.0.0/16"; "172.16.0.0/12"; "fc00::/7"]
                    (mkExclude [] ["*.arpa"; "*.lan"; "*.local"; "*.internal"]))] /\
        validateScopeConfig W cfg' = None) /\
  (forall notExist cause,
      Stat W DefaultLocation = StatFail notExist cause ->
      exists cfg, New W "" = (Some cfg, None) /\
                  Groups (ScopeConfig cfg) = defaultGroups) /\
  (forall file cfg err,
      Read W file = (Some cfg, err) -> ScopeFile (Scope cfg) = "" ->
      Groups (ScopeConfig cfg) = defaultGroups).
Proof.
  intros Hy Hc Hn.
  pose proof (loadScopeConfig_default W Hy Hc Hn) as Hload.
  split; [| split].
  - intros cfg Hfile Hgroups. exists (withGroups cfg defaultGroups).
    split; [now apply Hload |].
    split; [apply map_to_list_singleton |].
    now apply (defaultGroups_valid W Hc Hn).
  - intros ne cause Hstat. exists (setDefaults W zeroConfig).
    split; [unfold New; simpl; now rewrite Hstat |].
    unfold setDefaults. rewrite Hload; [reflexivity | reflexivity | now left].
  - intros file cfg err H Hfile. apply Read_Some in H.
    destruct H as (content & decoded & loaded & _ & _ & Hl & -> & _).
    change (Scope (sortProtocols ?c)) with (Scope c) in Hfile.
    rewrite setDefaults_Scope in Hfile.
    change (ScopeConfig (sortProtocols ?c)) with (ScopeConfig c).
    destruct (loadScopeConfig_groups_only W (withGroups decoded ∅)) as [gs Hgs].
    rewrite Hl in Hgs. simpl in Hgs.
    assert (Hdf : ScopeFile (Scope (withGroups decoded ∅)) = "")
      by (rewrite Hgs in Hfile; exact Hfile).
    rewrite Hload in Hl by (first [exact Hdf | now left]).
    injection Hl as <-.
    unfold setDefaults. rewrite Hload; [reflexivity | exact Hdf | now right].
Qed.

Lemma C9_default_scope_witness :
  yamlScope Sample.bare defaultScope = inl defaultGroups /\
  exists cfg, New Sample.bare "" = (Some cfg, None) /\
              Groups (ScopeConfig cfg) = defaultGroups.
Proof.
  assert (Hy : yamlScope Sample.bare defaultScope = inl defaultGroups)
    by (vm_compute; reflexivity).
  assert (Hc : Forall (fun n => is_Some (ParseCIDR Sample.bare n))
                 ["10.0.0.0/8"; "192.168.0.0/16"; "172.16.0.0/12"; "fc00::/7"])
    by (repeat constructor; vm_compute; eexists; reflexivity).
  assert (Hn : Forall (fun d => IsDomainName Sample.bare d = true)
                 ["arpa"; "lan"; "local"; "internal"])
    by (repeat constructor; vm_compute; reflexivity).
  split; [exact Hy |].
  exact (proj1 (proj2 (C9_default_scope Sample.bare Hy Hc Hn))
           true "no such file or directory" eq_refl).
Defined.

(** * The monitoring scope *)

Module ResolverFacts.
Import Resolver.

Lemma existsb_elem_of {A} (f : A -> bool) (l : list A) :
  existsb f l = true <-> exists x, x ∈ l /\ f x = true.
Proof.
  rewrite existsb_exists. split; intros (x & Hx & Hf); exists x; split; auto;
    now apply list_elem_of_In.
Qed.

Lemma existsb_none {A} (f : A -> bool) (l : list A) :
  existsb f l = false <-> forall x, x ∈ l -> f x = false.
Proof.
  rewrite <- not_true_iff_false, existsb_elem_of. split.
  - intros H x Hx. apply not_true_iff_false. intros Hf. apply H. eauto.
  - intros H (x & Hx & Hf). rewrite (H x Hx) in Hf. discriminate.
Qed.

Lemma existsb_Permutation {A} (f : A -> bool) (l l' : list A) :
  l ≡ₚ l' -> existsb f l = existsb f l'.
Proof.
  intros Hperm. apply eq_true_iff_eq. rewrite !existsb_elem_of.
  split; intros (x & Hx & Hf); exists x; split; auto.
  - now rewrite <- Hperm.
  - now rewrite Hperm.
Qed.

(** The decision of one group, spelled out. *)
Lemma groupDecision_true (g : Group) ip fqdn :
  groupDecision g ip fqdn = true <->
  (exists n, n ∈ inclusionNetworks g /\ Contains n ip = true) /\
  (forall e, e ∈ excludeNetworks g -> entryMatches e ip = false) /\
  (forall p, p ∈ excludeDomainPatterns g -> matchPattern p fqdn = false).
Proof.
  unfold groupDecision, included, excludedIP, excludedDomain.
  rewrite !andb_true_iff, !negb_true_iff, existsb_elem_of, !existsb_none.
  tauto.
Qed.

Lemma IsInScope_true (groups : gmap string Group) ip fqdn :
  IsInScope groups ip fqdn = true <->
  exists name g, groups !! name = Some g /\ groupDecision g ip fqdn = true.
Proof.
  unfold IsInScope, IsInScopeIn. rewrite existsb_elem_of. split.
  - intros ([name g] & Hin & Hd). exists name, g.
    split; [now apply elem_of_map_to_list | exact Hd].
  - intros (name & g & Hg & Hd). exists (name, g).
    split; [now apply elem_of_map_to_list | exact Hd].
Qed.

(** *** Strings *)

Lemma length_append (a b : string) :
  String.length (a +:+ b) = (String.length a + String.length b)%nat.
Proof. induction a as [| c a IH]; simpl; [reflexivity | now rewrite IH]. Qed.

Lemma dropString_append (a b : string) :
  dropString (String.length a) (a +:+ b) = b.
Proof. induction a as [| c a IH]; simpl; [now destruct b | exact IH]. Qed.

Lemma dropString_split (k : nat) (s : string) :
  (k <= String.length s)%nat -> exists pre, s = pre +:+ dropString k s.
Proof.
  revert s. induction k as [| k IH]; intros s Hk.
  - exists EmptyString. now destruct s.
  - destruct s as [| c s]; simpl in *; [lia |].
    destruct (IH s) as [pre Hpre]; [lia |].
    exists (String c pre).
    change (String c s = String c (pre +:+ dropString k s)). now rewrite <- Hpre.
Qed.

Lemma HasSuffix_true (s suffix : string) :
  HasSuffix s suffix = true <-> exists pre, s = pre +:+ suffix.
Proof.
  unfold HasSuffix. rewrite andb_true_iff, Nat.leb_le, String.eqb_eq. split.
  - intros [Hlen Hdrop].
    destruct (dropString_split (String.length s - String.length suffix) s)
      as [pre Hpre]; [lia |].
    exists pre. rewrite Hdrop in Hpre. exact Hpre.
  - intros [pre ->]. rewrite length_append.
    replace (String.length pre + String.length suffix - String.length suffix)%nat
      with (String.length pre) by lia.
    split; [lia | apply dropString_append].
Qed.

Lemma EqualFold_true (s t : string) :
  EqualFold s t = true <-> toLower s = toLower t.
Proof.
  revert t. induction s as [| a s IH]; intros [| b t]; simpl;
    try (split; [reflexivity || discriminate | reflexivity || discriminate]).
  rewrite andb_true_iff, Ascii.eqb_eq, IH. split.
  - intros [-> ->]. reflexivity.
  - intros [= -> ->]. auto.
Qed.

Lemma parsePattern_wildcard (suffix : string) :
  parsePattern ("*." +:+ suffix) = Wildcard suffix.
Proof. reflexivity. Qed.

End ResolverFacts.

(** C1.  [IsInScope] is true if and only if some group contains the
    source address in one of its inclusion networks, matches it with none
    of its exclude networks (exact IP or CIDR) and matches the domain with
    none of its exclude patterns.  The per-group decisions are combined
    with OR: the result is the same for every order of the groups, and a
    query that one group rejects is in scope as soon as another group
    accepts it. *)
Theorem C1_in_scope_iff_some_group (groups : gmap string Resolver.Group)
    (ip : IP) (fqdn : string) :
  (Resolver.IsInScope groups ip fqdn = true <->
   exists name g,
     groups !! name = Some g /\
     (exists n, n ∈ Resolver.inclusionNetworks g /\ Resolver.Contains n ip = true) /\
     (forall e, e ∈ Resolver.excludeNetworks g ->
        match e with
        | Resolver.EntryCIDR n => Resolver.Contains n ip
        | Resolver.EntryIP x => Resolver.sameIP x ip
        end = false) /\
     (forall p, p ∈ Resolver.excludeDomainPatterns g ->
        Resolver.matchPattern p fqdn = false)) /\
  (forall order,
      order ≡ₚ map_to_list groups ->
      Resolver.IsInScopeIn order ip fqdn = Resolver.IsInScope groups ip fqdn) /\
  (forall name1 g1 name2 g2,
      groups !! name1 = Some g1 -> groups !! name2 = Some g2 ->
      Resolver.groupDecision g1 ip fqdn = false ->
      Resolver.groupDecision g2 ip fqdn = true ->
      Resolver.IsInScope groups ip fqdn = true).
Proof.
  split; [| split].
  - rewrite ResolverFacts.IsInScope_true.
    split; intros (name & g & Hg & Hd); exists name, g; split; auto;
      now apply ResolverFacts.groupDecision_true.
  - intros order Hperm. now apply ResolverFacts.existsb_Permutation.
  - intros name1 g1 name2 g2 _ Hg2 _ Hd2.
    apply ResolverFacts.IsInScope_true. eauto.
Qed.

Lemma C1_in_scope_witness :
  overlappingGroups !! "strict" =
    Some (Resolver.mkGroup [mkIPNet (ipv4 10 0 0 0) 8]
                           [Resolver.EntryIP (ipv4 10 1 2 3)] []) /\
  Resolver.IsInScope overlappingGroups (ipv4 10 1 2 3) "example.com" = true.
Proof.
  split; [reflexivity |].
  apply (proj2 (proj2 (C1_in_scope_iff_some_group
                         overlappingGroups (ipv4 10 1 2 3) "example.com"))
           "strict" _ "lenient" _ eq_refl eq_refl eq_refl eq_refl).
Defined.

(** C2.  An exact pattern matches exactly the strings equal to it up to
    ASCII case; the wildcard pattern [*.<suffix>] matches [fqdn] exactly
    when [fqdn] is [suffix] or ends with a dot followed by [suffix].  So
    [*.local] matches a.local and a.b.local but not locals, and site.net
    matches site.net only (up to case). *)
Theorem C2_domain_match_rule (fqdn : string) :
  (forall domain,
      Resolver.matchPattern (Resolver.Exact domain) fqdn = true <->
      Resolver.toLower fqdn = Resolver.toLower domain) /\
  (forall suffix,
      Resolver.matchPattern (Resolver.parsePattern ("*." +:+ suffix)) fqdn = true <->
      fqdn = suffix \/ exists pre, fqdn = pre +:+ "." +:+ suffix) /\
  Resolver.matchPattern (Resolver.parsePattern "*.local") "a.local" = true /\
  Resolver.matchPattern (Resolver.parsePattern "*.local") "a.b.local" = true /\
  Resolver.matchPattern (Resolver.parsePattern "*.local") "locals" = false /\
  (Resolver.matchPattern (Resolver.parsePattern "site.net") fqdn = true <->
   Resolver.toLower fqdn = "site.net").
Proof.
  split; [intros domain; apply ResolverFacts.EqualFold_true |].
  split.
  - intros suffix. rewrite ResolverFacts.parsePattern_wildcard. simpl.
    rewrite orb_true_iff, String.eqb_eq, ResolverFacts.HasSuffix_true.
    reflexivity.
  - repeat split; try reflexivity;
      change (Resolver.parsePattern "site.net") with (Resolver.Exact "site.net");
      apply (ResolverFacts.EqualFold_true fqdn "site.net").
Qed.

(** C3.  Default deny: when no inclusion network of any group contains
    the address, [IsInScope] is false, whatever the domain. *)
Theorem C3_default_deny (groups : gmap string Resolver.Group)
    (ip : IP) (fqdn : string) :
  (forall name g n,
      groups !! name = Some g -> n ∈ Resolver.inclusionNetworks g ->
      Resolver.Contains n ip = false) ->
  Resolver.IsInScope groups ip fqdn = false.
Proof.
  intros Hnone. apply not_true_iff_false. intros Hin.
  apply ResolverFacts.IsInScope_true in Hin.
  destruct Hin as (name & g & Hg & Hd).
  apply ResolverFacts.groupDecision_true in Hd.
  destruct Hd as ((n & Hn & Hc) & _).
  rewrite (Hnone name g n Hg Hn) in Hc. discriminate.
Qed.

Lemma C3_default_deny_witness :
  Resolver.IsInScope scenarioGroups (ipv4 192 168 1 1) "a.com" = false.
Proof.
  apply C3_default_deny.
  intros name g n Hg Hn. unfold scenarioGroups in Hg.
  apply lookup_singleton_Some in Hg. destruct Hg as [_ <-].
  simpl in Hn. apply list_elem_of_singleton in Hn. subst n. reflexivity.
Defined.

(** The scenario of the specification, evaluated. *)
Example scenario_local_dropped :
  Resolver.IsInScope scenarioGroups (ipv4 10 1 2 3) "a.local" = false.
Proof. vm_compute. reflexivity. Qed.

Example scenario_forwarded :
  Resolver.IsInScope scenarioGroups (ipv4 10 1 2 3) "a.com" = true.
Proof. vm_compute. reflexivity. Qed.

Example scenario_other_network_dropped :
  Resolver.IsInScope scenarioGroups (ipv4 192 168 1 1) "a.com" = false.
Proof. vm_compute. reflexivity. Qed.

(** * The query buffer *)

Module PipelineFacts.
Import Pipeline.

(** Below capacity nothing is flushed. *)
Lemma pushAll_below (qs : list Query) (b : QueryBuffer) flushed :
  (length (active b) + length qs < capacity b)%nat ->
  pushAll qs b flushed = (mkBuffer (capacity b) (active b ++ qs), flushed).
Proof.
  revert b. induction qs as [| q rest IH]; intros b Hlen; simpl in *.
  - rewrite app_nil_r. now destruct b.
  - rewrite length_app. simpl.
    destruct (Nat.leb_spec (capacity b) (length (active b) + 1)) as [? | _]; [lia |].
    rewrite IH; simpl; [| rewrite length_app; simpl; lia].
    now rewrite <- app_assoc.
Qed.

(** The push that fills the buffer is the one that flushes it. *)
Lemma pushAll_fill (qs : list Query) (b : QueryBuffer) flushed :
  qs <> [] ->
  (length (active b) + length qs = capacity b)%nat ->
  pushAll qs b flushed = (mkBuffer (capacity b) [], flushed ++ [active b ++ qs]).
Proof.
  revert b. induction qs as [| q rest IH]; intros b Hne Hlen; [congruence |].
  simpl in *. rewrite length_app. simpl.
  destruct rest as [| q' rest'].
  - simpl in *.
    destruct (Nat.leb_spec (capacity b) (length (active b) + 1)) as [_ | ?]; [| lia].
    reflexivity.
  - destruct (Nat.leb_spec (capacity b) (length (active b) + 1)) as [? | _];
      [simpl in Hlen; lia |].
    rewrite IH; simpl; [| congruence | rewrite length_app; simpl in *; lia].
    now rewrite <- app_assoc.
Qed.

(** *** The failure store *)

Section Resend.
Context (SendQueries : nat -> QueryBatch -> bool).

Lemma resend_subset n entries fb :
  fb ∈ resend SendQueries n entries -> fb ∈ entries.
Proof.
  revert n. induction entries as [| x rest IH]; intros n; simpl; [easy |].
  destruct (SendQueries n (batch x)); rewrite ?elem_of_cons; intros H.
  - right. eauto.
  - destruct H; [now left | right; eauto].
Qed.

Lemma resend_sublist n entries :
  sublist (resend SendQueries n entries) entries.
Proof.
  revert n. induction entries as [| x rest IH]; intros n; simpl; [constructor |].
  destruct (SendQueries n (batch x)); [apply sublist_cons | apply sublist_skip]; apply IH.
Qed.

Lemma increasing_weaken bound bound' entries :
  (bound <= bound')%nat -> increasing bound entries -> increasing bound' entries.
Proof.
  intros Hle. induction entries as [| x rest IH]; simpl; [trivial |].
  intros (Hx & Hall & Hrest). split; [lia | split; [exact Hall | now apply IH]].
Qed.

Lemma increasing_resend bound n entries :
  increasing bound entries -> increasing bound (resend SendQueries n entries).
Proof.
  revert n. induction entries as [| x rest IH]; intros n; simpl; [trivial |].
  intros (Hx & Hall & Hrest). destruct (SendQueries n (batch x)); [now apply IH |].
  simpl. split; [exact Hx | split; [| now apply IH]].
  apply Forall_forall. intros y Hy. apply resend_subset in Hy.
  rewrite Forall_forall in Hall. now apply Hall.
Qed.

Lemma increasing_below bound entries fb :
  increasing bound entries -> fb ∈ entries -> (enqueued fb < bound)%nat.
Proof.
  induction entries as [| x rest IH]; simpl; [intros _ H; inversion H |].
  intros (Hx & _ & Hrest). rewrite elem_of_cons. intros [-> | Hin]; [exact Hx | now apply IH].
Qed.

Lemma increasing_snoc bound entries new :
  increasing bound entries ->
  increasing (S bound) (entries ++ [mkFailedBatch bound new]).
Proof.
  induction entries as [| x rest IH]; simpl.
  - intros _. split; [lia | split; [constructor | exact I]].
  - intros (Hx & Hall & Hrest). split; [lia | split; [| now apply IH]].
    apply Forall_app. split; [exact Hall |]. constructor; [exact Hx | constructor].
Qed.

(** A stored batch survives the resend exactly when its own call fails. *)
Lemma resend_kept bound n entries i fb :
  increasing bound entries ->
  entries !! i = Some fb ->
  (fb ∈ resend SendQueries n entries <-> SendQueries (n + i) (batch fb) = false).
Proof.
  revert n i. induction entries as [| x rest IH]; intros n i Hinc Hi; [easy |].
  simpl in Hinc. destruct Hinc as (Hx & Hall & Hrest).
  destruct i as [| j]; simpl in Hi.
  - injection Hi as ->. rewrite Nat.add_0_r. simpl.
    destruct (SendQueries n (batch fb)) eqn:Hs.
    + split; [| discriminate]. intros Hin. apply resend_subset in Hin.
      rewrite Forall_forall in Hall. specialize (Hall fb Hin). lia.
    + split; [reflexivity | intros _; now left].
  - assert (Hne : fb <> x).
    { intros ->. rewrite Forall_forall in Hall.
      assert (Hin : x ∈ rest) by (eapply list_elem_of_lookup_2; exact Hi).
      specialize (Hall x Hin). lia. }
    replace (n + S j)%nat with (S n + j)%nat by lia.
    rewrite <- (IH (S n) j Hrest Hi). simpl.
    destruct (SendQueries n (batch x)); [reflexivity |].
    rewrite elem_of_cons. tauto.
Qed.

End Resend.

Lemma elem_of_onDisk (f : Flusher) k q :
  (k, q) ∈ onDisk f <-> exists fb, fb ∈ store f /\ enqueued fb = k /\ q ∈ batch fb.
Proof.
  unfold onDisk. rewrite list_elem_of_In, in_flat_map. split.
  - intros (fb & Hfb & Hin). apply in_map_iff in Hin.
    destruct Hin as (q' & [= <- <-] & Hq).
    exists fb. rewrite !list_elem_of_In. auto.
  - intros (fb & Hfb & <- & Hq). exists fb.
    rewrite list_elem_of_In in Hfb. rewrite list_elem_of_In in Hq.
    split; [exact Hfb |]. apply in_map_iff. eauto.
Qed.

End PipelineFacts.

(** C6.  Pushing exactly [BufferSize] queries into an empty buffer
    triggers exactly one flush, the drained batch is the pushed queries in
    their insertion order, and the buffer is empty afterwards; no flush is
    signalled before the last of these pushes. *)
Theorem C6_full_buffer_flushes_once (bufferSize : nat) (qs : list Pipeline.Query) :
  (0 < bufferSize)%nat ->
  length qs = bufferSize ->
  Pipeline.pushAll qs (Pipeline.newBuffer bufferSize) []
    = (Pipeline.newBuffer bufferSize, [qs]) /\
  (forall k, (k < bufferSize)%nat ->
     Pipeline.pushAll (take k qs) (Pipeline.newBuffer bufferSize) []
       = (Pipeline.mkBuffer bufferSize (take k qs), [])).
Proof.
  intros Hpos Hlen. split.
  - rewrite PipelineFacts.pushAll_fill; [reflexivity | | exact Hlen].
    intros ->. simpl in Hlen. lia.
  - intros k Hk. rewrite PipelineFacts.pushAll_below; [reflexivity |].
    simpl. rewrite length_take. lia.
Qed.

Lemma C6_full_buffer_witness :
  (0 < 64)%nat /\ length (sampleQueries 0 64) = 64%nat /\
  Pipeline.pushAll (sampleQueries 0 64) (Pipeline.newBuffer 64) []
    = (Pipeline.newBuffer 64, [sampleQueries 0 64]).
Proof.
  assert (Hpos : (0 < 64)%nat) by lia.
  assert (Hlen : length (sampleQueries 0 64) = 64%nat) by reflexivity.
  split; [exact Hpos |]. split; [exact Hlen |].
  exact (proj1 (C6_full_buffer_flushes_once 64 (sampleQueries 0 64) Hpos Hlen)).
Defined.

(** C5.  One flush cycle, on a store whose enqueue numbers are in order:
    the remote client is called with every stored batch, oldest first, and
    only then with the new batch; a stored batch is still in the store
    afterwards if and only if its resend failed; after a successful resend
    the persisted log holds none of that batch's records, after a failed
    one it holds them all; the batches that stay keep their order, and the
    store stays in order for the next cycle. *)
Theorem C5_flush_resends_store_first
    (SendQueries : nat -> Pipeline.QueryBatch -> bool)
    (new : Pipeline.QueryBatch) (f : Pipeline.Flusher) :
  Pipeline.wellFormed f ->
  let f' := Pipeline.Flush SendQueries new f in
  Pipeline.sent f' = Pipeline.sent f ++ map Pipeline.batch (Pipeline.store f) ++ [new] /\
  (forall i fb,
      Pipeline.store f !! i = Some fb ->
      (fb ∈ Pipeline.store f' <->
       SendQueries (Pipeline.attempts f + i)%nat (Pipeline.batch fb) = false)) /\
  (forall i fb,
      Pipeline.store f !! i = Some fb ->
      SendQueries (Pipeline.attempts f + i)%nat (Pipeline.batch fb) = true ->
      forall q, (Pipeline.enqueued fb, q) ∉ Pipeline.onDisk f') /\
  (forall i fb,
      Pipeline.store f !! i = Some fb ->
      SendQueries (Pipeline.attempts f + i)%nat (Pipeline.batch fb) = false ->
      forall q, q ∈ Pipeline.batch fb -> (Pipeline.enqueued fb, q) ∈ Pipeline.onDisk f') /\
  (exists kept tail,
      Pipeline.store f' = kept ++ tail /\ sublist kept (Pipeline.store f) /\
      (tail = [] \/ tail = [Pipeline.mkFailedBatch (Pipeline.nextEnqueue f) new])) /\
  Pipeline.wellFormed f'.
Proof.
  intros Hwf f'. unfold Pipeline.wellFormed in Hwf.
  set (kept := Pipeline.resend SendQueries (Pipeline.attempts f) (Pipeline.store f)).
  set (last := Pipeline.mkFailedBatch (Pipeline.nextEnqueue f) new).
  assert (Hstore : Pipeline.store f' = kept \/ Pipeline.store f' = kept ++ [last]).
  { unfold f', Pipeline.Flush. simpl. destruct (_ || _); auto. }
  assert (Hold : forall fb, fb ∈ Pipeline.store f ->
                   (fb ∈ Pipeline.store f' <-> fb ∈ kept)).
  { intros fb Hin.
    pose proof (PipelineFacts.increasing_below _ _ _ Hwf Hin) as Hlt.
    destruct Hstore as [-> | ->]; [reflexivity |].
    rewrite elem_of_app, list_elem_of_singleton. split; [| tauto].
    intros [? | ->]; [assumption | simpl in Hlt; lia]. }
  assert (Hkept : forall i fb, Pipeline.store f !! i = Some fb ->
            (fb ∈ Pipeline.store f' <->
             SendQueries (Pipeline.attempts f + i)%nat (Pipeline.batch fb) = false)).
  { intros i fb Hi. rewrite Hold by (eapply list_elem_of_lookup_2; exact Hi).
    now apply PipelineFacts.resend_kept with (Pipeline.nextEnqueue f). }
  assert (Hwf' : Pipeline.wellFormed f').
  { unfold Pipeline.wellFormed, f', Pipeline.Flush. simpl. fold kept.
    pose proof (PipelineFacts.increasing_resend SendQueries _
                  (Pipeline.attempts f) _ Hwf) as Hinc. fold kept in Hinc.
    destruct (SendQueries _ new); simpl; [exact Hinc |].
    destruct (Pipeline.backed f); simpl.
    - now apply PipelineFacts.increasing_snoc.
    - apply PipelineFacts.increasing_weaken with (Pipeline.nextEnqueue f); [lia | exact Hinc]. }
  split; [reflexivity |]. split; [exact Hkept |].
  split; [| split; [| split; [| exact Hwf']]].
  - intros i fb Hi Hok q Hdisk.
    apply PipelineFacts.elem_of_onDisk in Hdisk.
    destruct Hdisk as (fb' & Hin' & Henq & _).
    assert (Hin : fb ∈ Pipeline.store f) by (eapply list_elem_of_lookup_2; exact Hi).
    assert (Hfb' : fb' ∈ Pipeline.store f).
    { destruct Hstore as [Hs | Hs]; rewrite Hs in Hin'.
      - now apply PipelineFacts.resend_subset in Hin'.
      - apply elem_of_app in Hin'. destruct Hin' as [Hin' | Hin'];
          [now apply PipelineFacts.resend_subset in Hin' |].
        apply list_elem_of_singleton in Hin'. subst fb'. simpl in Henq.
        pose proof (PipelineFacts.increasing_below _ _ _ Hwf Hin). lia. }
    assert (Heq : fb' = fb).
    { clear - Hwf Hin Hfb' Henq. revert Hwf Hin Hfb'.
      generalize (Pipeline.nextEnqueue f).
      induction (Pipeline.store f) as [| x rest IH]; intros bound Hinc H1 H2;
        [inversion H1 |].
      simpl in Hinc. destruct Hinc as (_ & Hall & Hrest).
      rewrite Forall_forall in Hall.
      apply elem_of_cons in H1, H2.
      destruct H1 as [-> | H1], H2 as [-> | H2]; try reflexivity.
      - specialize (Hall _ H2). lia.
      - specialize (Hall _ H1). lia.
      - now apply IH with bound. }
    subst fb'. apply (Hkept i fb Hi) in Hin'. congruence.
  - intros i fb Hi Hfail q Hq. apply PipelineFacts.elem_of_onDisk.
    exists fb. split; [now apply (Hkept i fb Hi) | auto].
  - destruct Hstore as [Hs | Hs].
    + exists kept, []. rewrite app_nil_r.
      split; [exact Hs | split; [apply PipelineFacts.resend_sublist | now left]].
    + exists kept, [last].
      split; [exact Hs | split; [apply PipelineFacts.resend_sublist | now right]].
Qed.

Lemma C5_flush_witness :
  Pipeline.wellFormed sampleFlusher /\
  Pipeline.store (Pipeline.Flush evenCalls (sampleQueries 3 1) sampleFlusher)
    = [Pipeline.mkFailedBatch 5 (sampleQueries 2 1)] /\
  Pipeline.sent (Pipeline.Flush evenCalls (sampleQueries 3 1) sampleFlusher)
    = [sampleQueries 0 2; sampleQueries 2 1; sampleQueries 3 1] /\
  Pipeline.wellFormed (Pipeline.Flush evenCalls (sampleQueries 3 1) sampleFlusher).
Proof.
  assert (Hwf : Pipeline.wellFormed sampleFlusher).
  { unfold Pipeline.wellFormed. simpl.
    repeat split; try lia; repeat constructor; simpl; lia. }
  split; [exact Hwf |]. split; [reflexivity |].
  destruct (C5_flush_resends_store_first evenCalls (sampleQueries 3 1)
              sampleFlusher Hwf) as (Hsent & _ & _ & _ & _ & Hwf').
  split; [exact Hsent | exact Hwf'].
Defined.


(** * Further properties of package [config] *)

(** ** [validateFilename] and [validate] *)

(** [validateFilename] returns [nil] exactly for a console output that is
    allowed, or a path that can be created. *)
Lemma validateFilename_None_char (W : World) (file : string) (noFileOutput : bool) :
  validateFilename W file noFileOutput = None <->
  (noFileOutput = true /\ isConsole file) \/ creatable W file.
Proof.
  unfold validateFilename, isConsole, creatable.
  destruct noFileOutput; simpl.
  - destruct (bool_decide (file = "stdout")) eqn:Ho;
      [apply bool_decide_eq_true in Ho; tauto |].
    destruct (bool_decide (file = "stderr")) eqn:He;
      [apply bool_decide_eq_true in He; tauto |].
    apply bool_decide_eq_false in Ho, He. simpl.
    destruct (Stat W (path_Dir W file)) as [[| |] | ne cause]; simpl;
      try (split; [discriminate | intros [[_ [? | ?]] | [[=] _]]; contradiction]).
    destruct (Stat W file) as [[| |] | [|] cause]; simpl;
      try (split; [discriminate |
                   intros [[_ [? | ?]] | [_ [[=] | [c [=]]]]]; contradiction]).
    + split; [intros _; right; auto | reflexivity].
    + split; [intros _; right; eauto | reflexivity].
  - destruct (Stat W (path_Dir W file)) as [[| |] | ne cause]; simpl;
      try (split; [discriminate | intros [[[=] _] | [[=] _]]]).
    destruct (Stat W file) as [[| |] | [|] cause]; simpl;
      try (split; [discriminate | intros [[[=] _] | [_ [[=] | [c [=]]]]]]).
    + split; [intros _; right; auto | reflexivity].
    + split; [intros _; right; eauto | reflexivity].
Qed.

(** X1.  [validateFilename] returns [nil] exactly when the name is one of
    the two console outputs and those are allowed, or the directory of the
    path is an existing directory and the path is a regular file or does
    not exist.  Otherwise its error is one of four, and names what is
    wrong: the directory that cannot be stat'ed or is no directory, or the
    file that is not regular or cannot be stat'ed. *)
Theorem validateFilename_None_iff (W : World) (file : string) (noFileOutput : bool) :
  (validateFilename W file noFileOutput = None <->
   (noFileOutput = true /\ isConsole file) \/ creatable W file) /\
  (forall e, validateFilename W file noFileOutput = Some e ->
     match e with
     | ErrCantStatDir dir cause =>
         dir = path_Dir W file /\ exists ne, Stat W dir = StatFail ne cause
     | ErrNotDirectory dir =>
         dir = path_Dir W file /\
         exists mode, Stat W dir = StatInfo mode /\ mode <> ModeDir
     | ErrNotRegular f =>
         f = file /\ exists mode, Stat W file = StatInfo mode /\ mode <> ModeRegular
     | ErrCantStatFile f cause => f = file /\ Stat W file = StatFail false cause
     | _ => False
     end).
Proof.
  split; [apply validateFilename_None_char |].
  intros e. unfold validateFilename.
  destruct (_ && _); [discriminate |].
  destruct (Stat W (path_Dir W file)) as [mode | ne cause] eqn:Hd.
  - destruct mode; simpl.
    + intros [= <-]. split; [reflexivity |]. rewrite Hd. eexists; split; eauto; discriminate.
    + destruct (Stat W file) as [fmode | ne cause] eqn:Hf.
      * destruct fmode; simpl; [discriminate | |];
          intros [= <-]; (split; [reflexivity |]); eexists; split; eauto; discriminate.
      * destruct ne; simpl; [discriminate |]. intros [= <-]. auto.
    + intros [= <-]. split; [reflexivity |]. rewrite Hd. eexists; split; eauto; discriminate.
  - intros [= <-]. split; [reflexivity |]. rewrite Hd. eauto.
Qed.

Lemma validateProtocols_None (protos : list string) :
  validateProtocols protos = None <->
  Forall (fun p => p = "udp" \/ p = "tcp") protos.
Proof.
  induction protos as [| p rest IH]; simpl.
  - split; [constructor | reflexivity].
  - rewrite Forall_cons, <- IH.
    destruct (bool_decide (p ≠ "udp")) eqn:Hu; simpl.
    + destruct (bool_decide (p ≠ "tcp")) eqn:Ht; simpl.
      * apply bool_decide_eq_true in Hu, Ht.
        split; [discriminate | intros [[? | ?] _]; contradiction].
      * apply bool_decide_eq_false in Ht. apply dec_stable in Ht. tauto.
    + apply bool_decide_eq_false in Hu. apply dec_stable in Hu. tauto.
Qed.

Lemma wrapConfig_None (r : goerror) : wrapConfig r = None <-> r = None.
Proof. destruct r; simpl; split; congruence. Qed.

Lemma isEmpty_false (s : string) : isEmpty s = false <-> s <> "".
Proof. unfold isEmpty. apply bool_decide_eq_false. Qed.

Lemma isEmpty_true (s : string) : isEmpty s = true <-> s = "".
Proof. unfold isEmpty. apply bool_decide_eq_true. Qed.

(** X2.  [validate] accepts exactly the configurations that name an
    existing interface, list one or two protocols out of udp and tcp, have
    a port between 0 and 65535, a log level out of debug, info, warn and
    error, log and events outputs that are a console or a creatable file
    (the events file may be empty), a creatable data file, a poll and a
    flush interval of at least 5 seconds, a buffer of at least 64 queries
    and a failed-queries file that is empty or creatable. *)
Theorem validate_None_iff (W : World) (cfg : Config) :
  validate W cfg = None <->
  Interface (Network cfg) <> "" /\
  InterfaceByName W (Interface (Network cfg)) = None /\
  (1 <= length (Protocols (Network cfg)) <= 2)%nat /\
  Forall (fun p => p = "udp" \/ p = "tcp") (Protocols (Network cfg)) /\
  0 <= Port (Network cfg) <= 65535 /\
  (isConsole (LogFile (Log cfg)) \/ creatable W (LogFile (Log cfg))) /\
  Level (Log cfg) ∈ ["debug"; "info"; "warn"; "error"] /\
  creatable W (DataFile (Data cfg)) /\
  (EventsFile (Events cfg) = "" \/ isConsole (EventsFile (Events cfg)) \/
   creatable W (EventsFile (Events cfg))) /\
  5 * Second <= PollInterval (Events cfg) /\
  64 <= BufferSize (Queries cfg) /\
  5 * Second <= FlushInterval (Queries cfg) /\
  (FailedFile (Failed (Queries cfg)) = "" \/
   creatable W (FailedFile (Failed (Queries cfg)))).
Proof.
  unfold validate.
  rewrite !andThen_None, !failWhen_None, validateProtocols_None, wrapConfig_None,
    !validateFilename_None_char, isEmpty_false, !Z.ltb_ge, orb_false_iff, !Z.ltb_ge,
    Nat.eqb_neq, Nat.ltb_ge.
  assert (Hiface : match InterfaceByName W (Interface (Network cfg)) with
                   | Some cause =>
                       Some (ErrCantOpenInterface (Interface (Network cfg)) cause)
                   | None => None
                   end = None <-> InterfaceByName W (Interface (Network cfg)) = None)
    by (destruct (InterfaceByName W _); split; congruence).
  assert (Hlevel : bool_decide (Level (Log cfg) ≠ "debug") &&
                   bool_decide (Level (Log cfg) ≠ "info") &&
                   bool_decide (Level (Log cfg) ≠ "warn") &&
                   bool_decide (Level (Log cfg) ≠ "error") = false <->
                   Level (Log cfg) ∈ ["debug"; "info"; "warn"; "error"]).
  { rewrite !elem_of_cons, elem_of_nil, !andb_false_iff, !bool_decide_eq_false.
    split.
    - intros [[[H | H] | H] | H]; apply dec_stable in H; tauto.
    - intros [-> | [-> | [-> | [-> | []]]]]; tauto. }
  assert (Hevents : (if isEmpty (EventsFile (Events cfg)) then None
                     else wrapConfig (validateFilename W (EventsFile (Events cfg)) true))
                    = None <->
                    EventsFile (Events cfg) = "" \/ isConsole (EventsFile (Events cfg)) \/
                    creatable W (EventsFile (Events cfg))).
  { destruct (isEmpty (EventsFile (Events cfg))) eqn:He.
    - apply isEmpty_true in He. tauto.
    - apply isEmpty_false in He.
      rewrite wrapConfig_None, validateFilename_None_char. tauto. }
  assert (Hfailed : (if isEmpty (FailedFile (Failed (Queries cfg))) then None
                     else wrapConfig
                            (validateFilename W (FailedFile (Failed (Queries cfg))) false))
                    = None <->
                    FailedFile (Failed (Queries cfg)) = "" \/
                    creatable W (FailedFile (Failed (Queries cfg)))).
  { destruct (isEmpty (FailedFile (Failed (Queries cfg)))) eqn:He.
    - apply isEmpty_true in He. tauto.
    - apply isEmpty_false in He.
      rewrite wrapConfig_None, validateFilename_None_char.
      split; [intros [[[=] _] | ?]; tauto | tauto]. }
  rewrite Hiface, Hlevel, Hevents, Hfailed.
  split.
  - intros (H1 & H2 & H3 & H4 & H5 & H6 & H7 & H8 & H9 & Hrest).
    split; [exact H1 |]. split; [exact H2 |]. split; [lia |].
    split; [exact H5 |]. split; [exact H6 |].
    split; [destruct H7 as [[_ ?] | ?]; auto |]. split; [exact H8 |].
    split; [destruct H9 as [[[=] _] | ?]; assumption | exact Hrest].
  - intros (H1 & H2 & H3 & H4 & H5 & H6 & H7 & H8 & Hrest).
    split; [exact H1 |]. split; [exact H2 |]. split; [lia |]. split; [lia |].
    split; [exact H4 |]. split; [exact H5 |].
    split; [destruct H6; auto |]. split; [exact H7 |].
    split; [now right | exact Hrest].
Qed.

Lemma validateProtocols_Some_elem (protos : list string) e :
  validateProtocols protos = Some e ->
  exists p, e = ErrInvalidProtocol p /\ p ∈ protos /\ p <> "udp" /\ p <> "tcp".
Proof.
  induction protos as [| p rest IH]; simpl; [discriminate |].
  destruct (bool_decide (p ≠ "udp")) eqn:Hu; simpl.
  - destruct (bool_decide (p ≠ "tcp")) eqn:Ht; simpl.
    + apply bool_decide_eq_true in Hu, Ht. intros [= <-].
      exists p. split; [reflexivity |]. split; [now left | auto].
    + intros H. destruct (IH H) as (q & ? & ? & ?). exists q.
      split; [assumption |]. split; [now right | assumption].
  - intros H. destruct (IH H) as (q & ? & ? & ?). exists q.
    split; [assumption |]. split; [now right | assumption].
Qed.

Lemma wrapConfig_Some_inv (r : goerror) (e : error) :
  wrapConfig r = Some e -> exists e', e = ErrWrapConfig e' /\ r = Some e'.
Proof. destruct r; simpl; intros [=]; eauto. Qed.

(** X3.  Every error of [validate] tells the truth about the
    configuration: it is the error of the check it names, with the value
    that failed it; [validate] never returns an error of the reading, the
    decoding or the scope. *)
Theorem validate_error_sound (W : World) (cfg : Config) (e : error) :
  validate W cfg = Some e ->
  match e with
  | ErrEmptyInterface => Interface (Network cfg) = ""
  | ErrCantOpenInterface iface cause =>
      iface = Interface (Network cfg) /\ InterfaceByName W iface = Some cause
  | ErrEmptyProtocols => Protocols (Network cfg) = []
  | ErrTooManyProtocols => (2 < length (Protocols (Network cfg)))%nat
  | ErrInvalidProtocol p =>
      p ∈ Protocols (Network cfg) /\ p <> "udp" /\ p <> "tcp"
  | ErrInvalidPort port =>
      port = Port (Network cfg) /\ (port < 0 \/ 65535 < port)
  | ErrInvalidLogLevel level =>
      level = Level (Log cfg) /\ level ∉ ["debug"; "info"; "warn"; "error"]
  | ErrPollInterval => PollInterval (Events cfg) < 5 * Second
  | ErrBufferSize => BufferSize (Queries cfg) < 64
  | ErrFlushInterval => FlushInterval (Queries cfg) < 5 * Second
  | ErrWrapConfig e' =>
      validateFilename W (LogFile (Log cfg)) true = Some e' \/
      (EventsFile (Events cfg) <> "" /\
       validateFilename W (EventsFile (Events cfg)) true = Some e') \/
      (FailedFile (Failed (Queries cfg)) <> "" /\
       validateFilename W (FailedFile (Failed (Queries cfg))) false = Some e')
  | ErrCantStatDir _ _ | ErrNotDirectory _ | ErrNotRegular _ | ErrCantStatFile _ _ =>
      validateFilename W (DataFile (Data cfg)) false = Some e
  | _ => False
  end.
Proof.
  unfold validate. intros H.
  apply andThen_Some in H. destruct H as [H | [_ H]].
  { apply failWhen_Some in H. destruct H as [H ->]. now apply isEmpty_true. }
  apply andThen_Some in H. destruct H as [H | [_ H]].
  { destruct (InterfaceByName W (Interface (Network cfg))) as [cause |] eqn:Hi;
      [| discriminate].
    injection H as <-. auto. }
  apply andThen_Some in H. destruct H as [H | [_ H]].
  { apply failWhen_Some in H. destruct H as [H ->].
    apply Nat.eqb_eq in H. now destruct (Protocols (Network cfg)). }
  apply andThen_Some in H. destruct H as [H | [_ H]].
  { apply failWhen_Some in H. destruct H as [H ->]. now apply Nat.ltb_lt. }
  apply andThen_Some in H. destruct H as [H | [_ H]].
  { apply validateProtocols_Some_elem in H. destruct H as (p & -> & ? & ? & ?). auto. }
  apply andThen_Some in H. destruct H as [H | [_ H]].
  { apply failWhen_Some in H. destruct H as [H ->].
    apply orb_true_iff in H. rewrite !Z.ltb_lt in H. auto. }
  apply andThen_Some in H. destruct H as [H | [_ H]].
  { apply wrapConfig_Some_inv in H. destruct H as (e' & -> & H). now left. }
  apply andThen_Some in H. destruct H as [H | [_ H]].
  { apply failWhen_Some in H. destruct H as [H ->].
    rewrite !andb_true_iff, !bool_decide_eq_true in H.
    split; [reflexivity |].
    rewrite !not_elem_of_cons. repeat split; try tauto. apply not_elem_of_nil. }
  apply andThen_Some in H. destruct H as [H | [_ H]].
  { pose proof (validateFilename_Some _ _ _ _ H) as Hfile.
    destruct e; try contradiction; exact H. }
  apply andThen_Some in H. destruct H as [H | [_ H]].
  { destruct (isEmpty (EventsFile (Events cfg))) eqn:He; [discriminate |].
    apply isEmpty_false in He.
    apply wrapConfig_Some_inv in H. destruct H as (e' & -> & H). right; left; auto. }
  apply andThen_Some in H. destruct H as [H | [_ H]].
  { apply failWhen_Some in H. destruct H as [H ->]. now apply Z.ltb_lt. }
  apply andThen_Some in H. destruct H as [H | [_ H]].
  { apply failWhen_Some in H. destruct H as [H ->]. now apply Z.ltb_lt. }
  apply andThen_Some in H. destruct H as [H | [_ H]].
  { apply failWhen_Some in H. destruct H as [H ->]. now apply Z.ltb_lt. }
  destruct (isEmpty (FailedFile (Failed (Queries cfg)))) eqn:He; [discriminate |].
  apply isEmpty_false in He.
  apply wrapConfig_Some_inv in H. destruct H as (e' & -> & H). right; right; auto.
Qed.

Lemma validate_error_sound_witness :
  validate Sample.bare (withBufferSize 63 (setDefaults Sample.bare zeroConfig))
    = Some ErrEmptyInterface /\
  Interface (Network (withBufferSize 63 (setDefaults Sample.bare zeroConfig))) = "".
Proof.
  assert (H : validate Sample.bare
                (withBufferSize 63 (setDefaults Sample.bare zeroConfig))
              = Some ErrEmptyInterface) by (vm_compute; reflexivity).
  split; [exact H |].
  exact (validate_error_sound Sample.bare _ _ H).
Defined.


(** ** [setDefaults] *)

Lemma setDefaults_fieldDefaults (W : World) cfg :
  setDefaults W cfg = fst (loadScopeConfig W (fieldDefaults W cfg)).
Proof. reflexivity. Qed.

Lemma orDefault_idem (s d : string) : orDefault (orDefault s d) d = orDefault s d.
Proof.
  unfold orDefault. destruct (isEmpty s) eqn:Hs; [| now rewrite Hs].
  now destruct (isEmpty d).
Qed.

Lemma orDefaultZ_idem (n d : Z) : orDefaultZ (orDefaultZ n d) d = orDefaultZ n d.
Proof.
  unfold orDefaultZ. destruct (n =? 0) eqn:Hn; [| now rewrite Hn].
  now destruct (d =? 0).
Qed.

Lemma fieldDefaults_idem (W : World) cfg :
  fieldDefaults W (fieldDefaults W cfg) = fieldDefaults W cfg.
Proof.
  unfold fieldDefaults; simpl.
  rewrite !orDefault_idem, !orDefaultZ_idem.
  f_equal.
  - f_equal. destruct (Protocols (Network cfg)); reflexivity.
  - f_equal. destruct (isEmpty (DataFile (Data cfg))) eqn:Hd; [| now rewrite Hd].
    match goal with |- (if ?b then _ else _) = _ => destruct b end; reflexivity.
Qed.

Lemma fieldDefaults_withGroups (W : World) cfg gs :
  fieldDefaults W (withGroups cfg gs) = withGroups (fieldDefaults W cfg) gs.
Proof. reflexivity. Qed.

Lemma loadScopeConfig_idem (W : World) cfg :
  fst (loadScopeConfig W (fst (loadScopeConfig W cfg))) = fst (loadScopeConfig W cfg).
Proof.
  unfold loadScopeConfig.
  destruct (if isEmpty (ScopeFile (Scope cfg)) then _ else _)
    as [content | cause] eqn:Hc; simpl; [| now rewrite Hc].
  destruct (yamlScope W content) as [groups | cause] eqn:Hy; simpl;
    [| now rewrite Hc, Hy].
  rewrite Hc, Hy. simpl.
  now rewrite (assoc_L (∪)), (idemp_L (∪)).
Qed.

(** X4.  Applying the defaults twice is the same as applying them once:
    [setDefaults] only fills what is unset, and loading the scope again
    leaves the groups as they are. *)
Theorem setDefaults_idempotent (W : World) (cfg : Config) :
  setDefaults W (setDefaults W cfg) = setDefaults W cfg.
Proof.
  rewrite !setDefaults_fieldDefaults.
  destruct (loadScopeConfig_groups_only W (fieldDefaults W cfg)) as [gs Hgs].
  rewrite Hgs at 1.
  rewrite fieldDefaults_withGroups, fieldDefaults_idem, <- Hgs.
  apply loadScopeConfig_idem.
Qed.

(** ** [Read]: the protocol list and the defaults *)

Lemma insertSorted_Permutation (x : string) (l : list string) :
  insertSorted x l ≡ₚ x :: l.
Proof.
  induction l as [| y l IH]; simpl; [reflexivity |].
  destruct (String.leb x y); [reflexivity |].
  rewrite IH. apply perm_swap.
Qed.

Lemma sortStrings_Permutation (l : list string) : sortStrings l ≡ₚ l.
Proof.
  induction l as [| x l IH]; simpl; [reflexivity |].
  unfold sortStrings in *. simpl. now rewrite insertSorted_Permutation, IH.
Qed.

Lemma insertSorted_HdRel (a x : string) (l : list string) :
  String.leb a x = true ->
  HdRel (fun a b => String.leb a b = true) a l ->
  HdRel (fun a b => String.leb a b = true) a (insertSorted x l).
Proof.
  intros Hax Hal. destruct l as [| y l]; simpl; [now constructor |].
  destruct (String.leb x y); constructor; [assumption |].
  now inversion Hal.
Qed.

Lemma insertSorted_ascending (x : string) (l : list string) :
  ascending l -> ascending (insertSorted x l).
Proof.
  unfold ascending. induction l as [| y l IH]; simpl; intros Hs.
  - repeat constructor.
  - destruct (String.leb x y) eqn:Hxy.
    + constructor; [assumption | now constructor].
    + inversion Hs as [| ? ? Hl Hhd]; subst.
      constructor; [now apply IH |].
      apply insertSorted_HdRel; [| assumption].
      destruct (String.leb_total x y) as [H | H]; [congruence | assumption].
Qed.

Lemma sortStrings_ascending (l : list string) : ascending (sortStrings l).
Proof.
  induction l as [| x l IH]; [constructor |].
  unfold sortStrings in *. simpl. now apply insertSorted_ascending.
Qed.

(** The configuration that [Read] returns, in terms of the decoded file:
    the field defaults applied, the protocols sorted, and some groups. *)
Lemma Read_shape (W : World) file cfg err :
  Read W file = (Some cfg, err) ->
  exists content decoded gs,
    ReadFile W file = inl content /\
    yamlConfig W content = inl decoded /\
    cfg = sortProtocols (withGroups (fieldDefaults W decoded) gs) /\
    err = validate W cfg.
Proof.
  intros H. apply Read_Some in H.
  destruct H as (content & decoded & loaded & Hr & Hy & Hl & -> & ->).
  destruct (loadScopeConfig_groups_only W (withGroups decoded ∅)) as [gs Hgs].
  rewrite Hl in Hgs. simpl in Hgs. subst loaded.
  rewrite setDefaults_fieldDefaults.
  destruct (loadScopeConfig_groups_only W
              (fieldDefaults W (withGroups (withGroups decoded ∅) gs))) as [gs' Hgs'].
  exists content, decoded, gs'. rewrite Hgs'. auto.
Qed.

(** X5.  The configuration that [Read] returns has its protocol list in
    ascending order, and the list holds the protocols of the file, each as
    often as the file has it, or udp alone when the file has none. *)
Theorem Read_protocols_sorted (W : World) file cfg err :
  Read W file = (Some cfg, err) ->
  ascending (Protocols (Network cfg)) /\
  exists content decoded,
    ReadFile W file = inl content /\ yamlConfig W content = inl decoded /\
    Protocols (Network cfg) ≡ₚ
      match Protocols (Network decoded) with
      | [] => ["udp"]
      | ps => ps
      end.
Proof.
  intros H. apply Read_shape in H.
  destruct H as (content & decoded & gs & Hr & Hy & -> & _). simpl.
  split; [apply sortStrings_ascending |].
  exists content, decoded. split; [exact Hr |]. split; [exact Hy |].
  rewrite sortStrings_Permutation.
  now destruct (Protocols (Network decoded)).
Qed.

Lemma Read_protocols_sorted_witness :
  exists cfg err,
    Read Sample.installed DefaultLocation = (Some cfg, err) /\
    Protocols (Network cfg) = ["tcp"; "udp"] /\
    ascending (Protocols (Network cfg)).
Proof.
  assert (Hp : match fst (Read Sample.installed DefaultLocation) with
               | Some c => Protocols (Network c)
               | None => []
               end = ["tcp"; "udp"]) by (vm_compute; reflexivity).
  destruct (Read Sample.installed DefaultLocation) as [[cfg |] err] eqn:E;
    simpl in Hp; [| discriminate].
  exists cfg, err. split; [reflexivity |]. split; [exact Hp |].
  exact (proj1 (Read_protocols_sorted Sample.installed _ cfg err E)).
Defined.

(** X6.  Sorting the protocols does not change what [validate] accepts:
    a configuration passes with its protocol list sorted exactly when it
    passes with the list as written. *)
Theorem validate_sortProtocols (W : World) (cfg : Config) :
  validate W (sortProtocols cfg) = None <-> validate W cfg = None.
Proof.
  pose proof (sortStrings_Permutation (Protocols (Network cfg))) as Hperm.
  assert (Hall : Forall (fun p => p = "udp" \/ p = "tcp")
                   (sortStrings (Protocols (Network cfg))) <->
                 Forall (fun p => p = "udp" \/ p = "tcp") (Protocols (Network cfg)))
    by now rewrite Hperm.
  unfold validate. simpl.
  rewrite !andThen_None, !validateProtocols_None, (Permutation_length Hperm), Hall.
  reflexivity.
Qed.

Lemma orDefaultZ_lt (n d bound : Z) :
  bound <= d -> orDefaultZ n d < bound -> n <> 0 /\ n < bound.
Proof.
  unfold orDefaultZ. destruct (Z.eqb_spec n 0); intros; [lia | auto].
Qed.

Lemma validate_ErrEmptyProtocols (W : World) cfg :
  validate W cfg = Some ErrEmptyProtocols -> Protocols (Network cfg) = [].
Proof.
  unfold validate. intros H. error_chain H.
  apply Nat.eqb_eq in H. now destruct (Protocols (Network cfg)).
Qed.

Lemma validate_ErrInvalidLogLevel (W : World) cfg level :
  validate W cfg = Some (ErrInvalidLogLevel level) ->
  level = Level (Log cfg) /\ level ∉ ["debug"; "info"; "warn"; "error"].
Proof.
  unfold validate. intros H. error_chain H.
  match goal with Heq : ErrInvalidLogLevel _ = _ |- _ => injection Heq as -> end.
  rewrite !andb_true_iff, !bool_decide_eq_true in H.
  split; [reflexivity |].
  rewrite !not_elem_of_cons. repeat split; try tauto. apply not_elem_of_nil.
Qed.

Lemma validate_ErrInvalidPort (W : World) cfg port :
  validate W cfg = Some (ErrInvalidPort port) ->
  port = Port (Network cfg) /\ (port < 0 \/ 65535 < port).
Proof.
  unfold validate. intros H. error_chain H.
  match goal with Heq : ErrInvalidPort _ = _ |- _ => injection Heq as -> end.
  apply orb_true_iff in H. rewrite !Z.ltb_lt in H. auto.
Qed.

(** X7.  A value that the configuration file leaves unset is never what
    [Read]'s validation complains about: the empty-protocol-list error
    cannot occur, and an error about the poll interval, the buffer size,
    the flush interval, the log level or the port is about a value that
    the file sets explicitly. *)
Theorem Read_defaults_pass_validation (W : World) file cfg err :
  Read W file = (Some cfg, err) ->
  exists content decoded,
    ReadFile W file = inl content /\ yamlConfig W content = inl decoded /\
    err <> Some ErrEmptyProtocols /\
    (err = Some ErrPollInterval ->
     PollInterval (Events decoded) <> 0 /\ PollInterval (Events decoded) < 5 * Second) /\
    (err = Some ErrBufferSize ->
     BufferSize (Queries decoded) <> 0 /\ BufferSize (Queries decoded) < 64) /\
    (err = Some ErrFlushInterval ->
     FlushInterval (Queries decoded) <> 0 /\
     FlushInterval (Queries decoded) < 5 * Second) /\
    (forall level, err = Some (ErrInvalidLogLevel level) ->
     level = Level (Log decoded) /\ level <> "") /\
    (forall port, err = Some (ErrInvalidPort port) ->
     port = Port (Network decoded) /\ port <> 0).
Proof.
  intros H. apply Read_shape in H.
  destruct H as (content & decoded & gs & Hr & Hy & -> & ->).
  exists content, decoded. split; [exact Hr |]. split; [exact Hy |].
  set (cfg := sortProtocols (withGroups (fieldDefaults W decoded) gs)).
  split; [| split; [| split; [| split; [| split]]]].
  - intros He. apply validate_ErrEmptyProtocols in He. simpl in He.
    pose proof (sortStrings_Permutation
                  (if Nat.eqb (length (Protocols (Network decoded))) 0
                   then ["udp"] else Protocols (Network decoded))) as Hperm.
    rewrite He in Hperm. apply Permutation_nil_l in Hperm.
    destruct (Protocols (Network decoded)); discriminate.
  - intros He. apply validate_ErrPollInterval in He. simpl in He.
    apply orDefaultZ_lt in He; [exact He |]. unfold Minute, Second, Nanosecond. lia.
  - intros He. apply validate_ErrBufferSize in He. simpl in He.
    apply orDefaultZ_lt in He; [exact He | lia].
  - intros He. apply validate_ErrFlushInterval in He. simpl in He.
    apply orDefaultZ_lt in He; [exact He |]. unfold Second, Nanosecond. lia.
  - intros level He. apply validate_ErrInvalidLogLevel in He. simpl in He.
    destruct He as [-> Hnot]. unfold orDefault in *.
    destruct (isEmpty (Level (Log decoded))) eqn:Hl.
    + exfalso. apply Hnot. rewrite !elem_of_cons. auto.
    + apply isEmpty_false in Hl. auto.
  - intros port He. apply validate_ErrInvalidPort in He. simpl in He.
    destruct He as [-> Hrange]. unfold orDefaultZ in *.
    destruct (Z.eqb_spec (Port (Network decoded)) 0); [lia | auto].
Qed.

Lemma Read_defaults_pass_validation_witness :
  exists cfg err,
    Read Sample.installed "/etc/nfr/small.yml" = (Some cfg, err) /\
    err <> Some ErrEmptyProtocols.
Proof.
  assert (Hs : is_Some (fst (Read Sample.installed "/etc/nfr/small.yml")))
    by (vm_compute; eexists; reflexivity).
  destruct (Read Sample.installed "/etc/nfr/small.yml") as [[cfg |] err] eqn:E;
    [| exfalso; destruct Hs as [? Hs]; discriminate].
  exists cfg, err. split; [reflexivity |].
  destruct (Read_defaults_pass_validation Sample.installed _ cfg err E)
    as (_ & _ & _ & _ & Hne & _).
  exact Hne.
Defined.

(** ** The errors of the scope validation *)

Lemma validateNetworks_Some (W : World) ns e :
  validateNetworks W ns = Some e ->
  exists n, e = ErrNotCIDR n /\ n ∈ ns /\ ParseCIDR W n = None.
Proof.
  induction ns as [| n rest IH]; simpl; [discriminate |].
  destruct (ParseCIDR W n) eqn:Hn.
  - intros H. destruct (IH H) as (m & ? & ? & ?). exists m.
    split; [assumption |]. split; [now right | assumption].
  - intros [= <-]. exists n. split; [reflexivity |]. split; [now left | assumption].
Qed.

Lemma validateExcludeNetworks_Some (W : World) ns e :
  validateExcludeNetworks W ns = Some e ->
  exists n, e = ErrNotCIDRNorIP n /\ n ∈ ns /\
            ParseCIDR W n = None /\ ParseIP W n = None.
Proof.
  induction ns as [| n rest IH]; simpl; [discriminate |].
  assert (Hrest : validateExcludeNetworks W rest = Some e ->
                  exists m, e = ErrNotCIDRNorIP m /\ m ∈ n :: rest /\
                            ParseCIDR W m = None /\ ParseIP W m = None).
  { intros H. destruct (IH H) as (m & ? & ? & ?). exists m.
    split; [assumption |]. split; [now right | assumption]. }
  destruct (ParseCIDR W n) eqn:Hc; [exact Hrest |].
  destruct (ParseIP W n) eqn:Hi; [exact Hrest |].
  intros [= <-]. exists n. split; [reflexivity |]. split; [now left | auto].
Qed.

Lemma validateExcludeDomains_Some (W : World) ds e :
  validateExcludeDomains W ds = Some e ->
  exists d, e = ErrNotDomainName d /\ d ∈ ds /\
            IsDomainName W d = false /\
            IsDomainName W (TrimPrefix d "*.") = false.
Proof.
  induction ds as [| d rest IH]; simpl; [discriminate |].
  destruct (negb (IsDomainName W d) && negb (IsDomainName W (TrimPrefix d "*.")))
    eqn:Hd.
  - intros [= <-]. apply andb_true_iff in Hd. rewrite !negb_true_iff in Hd.
    exists d. split; [reflexivity |]. split; [now left | exact Hd].
  - intros H. destruct (IH H) as (m & ? & ? & ?). exists m.
    split; [assumption |]. split; [now right | assumption].
Qed.

Lemma validateGroup_Some (W : World) g e :
  validateGroup W g = Some e -> namesBadEntry W g e.
Proof.
  unfold validateGroup. intros H.
  apply andThen_Some in H. destruct H as [H | [_ H]].
  { apply validateNetworks_Some in H. destruct H as (n & -> & ? & ?). simpl. auto. }
  apply andThen_Some in H. destruct H as [H | [_ H]].
  { apply validateExcludeNetworks_Some in H. destruct H as (n & -> & ? & ?). simpl. auto. }
  apply validateExcludeDomains_Some in H. destruct H as (d & -> & ? & ?). simpl. auto.
Qed.

(** X8.  When the validation of the scope groups fails, the error names an
    entry that is really there and really refused: it comes from the first
    group, in the order of the visit, that has an invalid entry, and every
    group visited before it is valid. *)
Theorem validateGroups_error_sound (W : World)
    (order : list (string * GroupT)) (e : error) :
  validateGroups W order = Some e ->
  exists before name g after,
    order = before ++ (name, g) :: after /\
    Forall (fun ng => entriesValid W (snd ng)) before /\
    validateGroup W g = Some e /\
    namesBadEntry W g e.
Proof.
  induction order as [| [name g] rest IH]; simpl; [discriminate |].
  intros H. apply andThen_Some in H. destruct H as [H | [Hg H]].
  - exists [], name, g, rest. split; [reflexivity |]. split; [constructor |].
    split; [exact H | now apply validateGroup_Some].
  - destruct (IH H) as (before & name' & g' & after & -> & Hall & He & Hbad).
    exists ((name, g) :: before), name', g', after.
    split; [reflexivity |].
    split; [constructor; [now apply validateGroup_None | exact Hall] | auto].
Qed.

Lemma validateGroups_error_sound_witness :
  validateGroups Sample.bare
    [("a", mkGroup ["10.0.0.0/8"] (mkExclude [] []));
     ("b", mkGroup ["10.0.0.1"] (mkExclude [] []))]
  = Some (ErrNotCIDR "10.0.0.1") /\
  exists before name g after,
    [("a", mkGroup ["10.0.0.0/8"] (mkExclude [] []));
     ("b", mkGroup ["10.0.0.1"] (mkExclude [] []))]
    = before ++ (name, g) :: after /\
    namesBadEntry Sample.bare g (ErrNotCIDR "10.0.0.1").
Proof.
  assert (H : validateGroups Sample.bare
                [("a", mkGroup ["10.0.0.0/8"] (mkExclude [] []));
                 ("b", mkGroup ["10.0.0.1"] (mkExclude [] []))]
              = Some (ErrNotCIDR "10.0.0.1")) by (vm_compute; reflexivity).
  split; [exact H |].
  destruct (validateGroups_error_sound Sample.bare _ _ H)
    as (before & name & g & after & Heq & _ & _ & Hbad).
  exists before, name, g, after. split; [exact Heq | exact Hbad].
Defined.



(** X10.  An exclude domain that starts with [*.] passes the validation
    exactly when it is a domain name as written or with these two
    characters taken off, once; any other entry must be a domain name as
    it stands. *)
Theorem validateExcludeDomains_wildcard (W : World) (d : string) :
  (validateExcludeDomains W ["*." +:+ d] = None <->
   IsDomainName W ("*." +:+ d) = true \/ IsDomainName W d = true) /\
  (HasPrefix d "*." = false ->
   (validateExcludeDomains W [d] = None <-> IsDomainName W d = true)).
Proof.
  split.
  - rewrite validateExcludeDomains_None, Forall_singleton. reflexivity.
  - intros Hd. rewrite validateExcludeDomains_None, Forall_singleton.
    unfold TrimPrefix. rewrite Hd. tauto.
Qed.

Lemma validateExcludeDomains_wildcard_witness :
  HasPrefix "site.net" "*." = false /\
  validateExcludeDomains Sample.bare ["site.net"] = None.
Proof.
  assert (Hd : HasPrefix "site.net" "*." = false) by reflexivity.
  split; [exact Hd |].
  apply (proj2 (validateExcludeDomains_wildcard Sample.bare "site.net") Hd).
  vm_compute. reflexivity.
Defined.


(** * The command [account register] and the saving of the configuration *)

Section RegisterFacts.
Context {Details : Type} (S : @Services Details).

Lemma Save_events (cfg : Config) (file : string) ev :
  ev ∈ fst (Save S cfg file) ->
  exists content, ev = Write file content /\ yamlMarshal S cfg = inl content.
Proof.
  unfold Save. destruct (yamlMarshal S cfg) as [content | err]; simpl.
  - intros ->%list_elem_of_singleton. eauto.
  - intros H. inversion H.
Qed.

Lemma SaveDefault_events (cfg : Config) ev :
  ev ∈ fst (SaveDefault S cfg) ->
  ev = Mkdir (filepath_Dir S DefaultLocation) \/
  exists content, ev = Write DefaultLocation content /\ yamlMarshal S cfg = inl content.
Proof.
  unfold SaveDefault. destruct (MkdirAll S _) as [err |]; simpl.
  - intros ->%list_elem_of_singleton. now left.
  - destruct (Save S cfg DefaultLocation) as [events err] eqn:Hs. simpl.
    intros [-> | Hin]%elem_of_cons; [now left |]. right.
    apply (Save_events cfg DefaultLocation). now rewrite Hs.
Qed.


End RegisterFacts.

Section RegisterProperties.
Context {Details : Type} (S : @Services Details).


(** The saving and the registration, the last two steps of a run. *)
Ltac finish_run Hp Hsave Hreg :=
  match goal with
  | |- context [if isEmpty ?p then SaveDefault ?S ?c else Save ?S ?c ?p] =>
      destruct (isEmpty p) eqn:Hp;
      [apply isEmpty_true in Hp; destruct (SaveDefault S c) as [saved errSave] eqn:Hsave
      |apply isEmpty_false in Hp; destruct (Save S c p) as [saved errSave] eqn:Hsave]
  end;
  match goal with
  | |- context [match AccountRegister ?S ?k ?q with _ => _ end] =>
      destruct (AccountRegister S k q) eqn:Hreg
  end.

Ltac close_run Hp Hsave Hreg :=
  split;
  [first [left; split; [rewrite Hsave; reflexivity | exact Hp]
         | right; split; [rewrite Hsave; reflexivity | exact Hp]]
  | simpl; rewrite Hreg, <- ?app_assoc; simpl; reflexivity].

(** The runs of [register], one by one: stopped by the account status, by
    the details, by the key request, or carried through to the
    registration. *)
Lemma register_shape (cfg : Config) (clientKey configPath key : string) :
  let r := register S cfg clientKey configPath key in
  let k1 := firstKey cfg clientKey key in
  exists t1, Forall isQuiet t1 /\
    ((AccountStatus S k1 = inl true /\
      r = mkRegistered cfg k1 (t1 ++ [AskStatus]) (Some "Account is already registered")) \/
     (AccountStatus S k1 <> inl true /\
      ((exists err, GetAccountRegisterDetails S = inr err /\
          r = mkRegistered cfg k1
                (t1 ++ [AskStatus; Print ProvideDetails; AskDetails]) (Some err)) \/
       (exists req, GetAccountRegisterDetails S = inl req /\
          ((key = "" /\ APIKey (Alphasoc cfg) = "" /\
            exists err, KeyRequest S k1 = inr err /\
              r = mkRegistered cfg k1
                    ((t1 ++ [AskStatus; Print ProvideDetails; AskDetails]) ++
                     [RequestKey; Print EmptyLine]) (Some err)) \/
           (exists cfg2 k2 t3 saved m1 m2,
              ((key = "" /\ APIKey (Alphasoc cfg) = "" /\
                KeyRequest S k1 = inl k2 /\ cfg2 = withAPIKey k2 cfg /\
                t3 = [RequestKey; SetKey k2]) \/
               ((key <> "" \/ APIKey (Alphasoc cfg) <> "") /\
                cfg2 = cfg /\ k2 = k1 /\ t3 = [])) /\
              (saved = fst (SaveDefault S cfg2) /\ configPath = "" \/
               saved = fst (Save S cfg2 configPath) /\ configPath <> "") /\
              r = mkRegistered cfg2 k2
                    (((t1 ++ [AskStatus; Print ProvideDetails; AskDetails]) ++
                      t3 ++ saved ++ [Print m1]) ++ [Register k2 req; Print m2])
                    (AccountRegister S k2 req))))))).
Proof.
  intros r k1. subst r k1. unfold register, firstKey.
  destruct (isEmpty key) eqn:Hk; simpl.
  - pose proof (proj1 (isEmpty_true _) Hk) as Hk'.
    destruct (isEmpty (APIKey (Alphasoc cfg))) eqn:Ha; simpl.
    + pose proof (proj1 (isEmpty_true _) Ha) as Ha'.
      exists []. split; [constructor |]. simpl.
      destruct (AccountStatus S clientKey) as [[|] | serr] eqn:Hs;
        [now left | right | right]; (split; [discriminate |]).
      all: destruct (GetAccountRegisterDetails S) as [req | err]; [| left; eauto].
      all: right; exists req; (split; [reflexivity |]).
      all: destruct (KeyRequest S clientKey) as [newKey | kerr];
        [right | left; eauto 10].
      all: finish_run Hp Hsave Hreg.
      all: do 6 eexists; (split; [left; repeat split; try eassumption; reflexivity |]).
      all: close_run Hp Hsave Hreg.
    + pose proof (proj1 (isEmpty_false _) Ha) as Ha'.
      exists [SetKey (APIKey (Alphasoc cfg)); Print (UsingKey (APIKey (Alphasoc cfg)))].
      split; [repeat constructor | clear Ha].
      destruct (AccountStatus S (APIKey (Alphasoc cfg))) as [[|] | serr] eqn:Hs;
        [now left | right | right]; (split; [discriminate |]).
      all: destruct (GetAccountRegisterDetails S) as [req | err]; [| left; eauto].
      all: right; exists req; (split; [reflexivity |]); right.
      all: finish_run Hp Hsave Hreg.
      all: do 6 eexists; (split; [right; repeat split; eauto |]).
      all: close_run Hp Hsave Hreg.
  - pose proof (proj1 (isEmpty_false _) Hk) as Hk'.
    exists [SetKey key; Print (UsingKey key)].
    split; [repeat constructor | clear Hk].
    destruct (AccountStatus S key) as [[|] | serr] eqn:Hs;
      [now left | right | right]; (split; [discriminate |]).
    all: destruct (GetAccountRegisterDetails S) as [req | err]; [| left; eauto].
    all: right; exists req; (split; [reflexivity |]); right.
    all: finish_run Hp Hsave Hreg.
    all: do 6 eexists; (split; [right; repeat split; eauto |]).
    all: close_run Hp Hsave Hreg.
Qed.


Lemma isQuiet_elem (t : list (@Event Details)) ev :
  Forall isQuiet t -> ev ∈ t -> isQuiet ev.
Proof. rewrite Forall_forall. auto. Qed.

(** What each event of a run of [register] says about the run. *)
Lemma register_events (cfg : Config) (clientKey configPath key : string) ev :
  let r := register S cfg clientKey configPath key in
  ev ∈ did r ->
  match ev with
  | RequestKey => key = "" /\ APIKey (Alphasoc cfg) = ""
  | Mkdir dir => configPath = "" /\ dir = filepath_Dir S DefaultLocation
  | Write file content =>
      file = savePath configPath /\ yamlMarshal S (cfgAfter r) = inl content
  | Register k req =>
      k = keyAfter r /\ GetAccountRegisterDetails S = inl req /\
      result r = AccountRegister S k req
  | _ => True
  end.
Proof.
  intros r.
  destruct (register_shape cfg clientKey configPath key) as (t1 & Hq & Hshape).
  fold r in Hshape.
  assert (Hquiet : ev ∈ t1 ->
            match ev with
            | RequestKey => key = "" /\ APIKey (Alphasoc cfg) = ""
            | Mkdir dir => configPath = "" /\ dir = filepath_Dir S DefaultLocation
            | Write file content =>
                file = savePath configPath /\ yamlMarshal S (cfgAfter r) = inl content
            | Register k req =>
                k = keyAfter r /\ GetAccountRegisterDetails S = inl req /\
                result r = AccountRegister S k req
            | _ => True
            end).
  { intros Hin. pose proof (isQuiet_elem _ _ Hq Hin) as Hev.
    destruct ev; simpl in Hev; try contradiction; exact I. }
  clearbody r.
  destruct Hshape as [[_ Hr] | [_ [(err & _ & Hr) | (req & Hreq & [Hfail | Hrun])]]].
  - intros Hin. rewrite Hr in Hin. simpl in Hin.
    rewrite elem_of_app, list_elem_of_singleton in Hin.
    destruct Hin as [Hin | ->]; [exact (Hquiet Hin) | exact I].
  - intros Hin. rewrite Hr in Hin. simpl in Hin.
    rewrite elem_of_app, !elem_of_cons, elem_of_nil in Hin.
    destruct Hin as [Hin | [-> | [-> | [-> | []]]]]; try exact I. exact (Hquiet Hin).
  - destruct Hfail as (Hk & Ha & err & _ & Hr).
    intros Hin. rewrite Hr in Hin. simpl in Hin.
    rewrite !elem_of_app, !elem_of_cons, elem_of_nil in Hin.
    destruct Hin as [[Hin | [-> | [-> | [-> | []]]]] | [-> | [-> | []]]];
      try exact I; [exact (Hquiet Hin) | auto].
  - destruct Hrun as (cfg2 & k2 & t3 & saved & m1 & m2 & Hkey & Hsaved & Hr).
    intros Hin. rewrite Hr in Hin. simpl in Hin.
    rewrite !elem_of_app, !elem_of_cons, elem_of_nil in Hin.
    destruct Hin as [[[Hin | [-> | [-> | [-> | []]]]] | [Hin | [Hin | [-> | []]]]]
                     | [-> | [-> | []]]]; try exact I.
    + exact (Hquiet Hin).
    + destruct Hkey as [(Hk & Ha & _ & _ & ->) | (_ & _ & _ & ->)].
      * apply elem_of_cons in Hin. destruct Hin as [-> | Hin]; [auto |].
        apply list_elem_of_singleton in Hin. subst ev. exact I.
      * inversion Hin.
    + destruct Hsaved as [[-> Hp] | [-> Hp]].
      * apply SaveDefault_events in Hin.
        destruct Hin as [-> | (content & -> & Hm)]; [auto |].
        unfold savePath. rewrite Hp, Hr. auto.
      * apply Save_events in Hin. destruct Hin as (content & -> & Hm).
        unfold savePath, isEmpty. rewrite bool_decide_eq_false_2 by exact Hp.
        rewrite Hr. auto.
    + rewrite Hr. simpl. auto.
Qed.


(** X12.  When the account is already registered, [register] returns the
    error saying so and does nothing else: the configuration is unchanged,
    the user is not asked for details, no key is requested, nothing is
    saved and no registration is sent. *)
Theorem register_already_registered (cfg : Config) (clientKey configPath key : string) :
  AccountStatus S (firstKey cfg clientKey key) = inl true ->
  let r := register S cfg clientKey configPath key in
  result r = Some "Account is already registered" /\
  cfgAfter r = cfg /\
  keyAfter r = firstKey cfg clientKey key /\
  Forall isQuiet (did r).
Proof.
  intros Hs r.
  destruct (register_shape cfg clientKey configPath key) as (t1 & Hq & Hshape).
  fold r in Hshape. clearbody r.
  destruct Hshape as [[_ ->] | [Hnot _]]; [| contradiction].
  simpl. repeat split. apply Forall_app. split; [exact Hq | repeat constructor].
Qed.

(** X13.  [register] asks the API for a new key only when neither the
    command line nor the configuration gives one, and then registers with
    the new key and puts it into the configuration.  When a key is given,
    the configuration is left as it is (the key of the command line is
    never written into it) and the registration is sent with that key, the
    command line first. *)
Theorem register_key_choice (cfg : Config) (clientKey configPath key : string) :
  let r := register S cfg clientKey configPath key in
  (RequestKey ∈ did r -> key = "" /\ APIKey (Alphasoc cfg) = "") /\
  (key <> "" \/ APIKey (Alphasoc cfg) <> "" ->
   cfgAfter r = cfg /\ keyAfter r = firstKey cfg clientKey key) /\
  (forall k req, Register k req ∈ did r -> k = keyAfter r) /\
  (forall k req,
      key = "" -> APIKey (Alphasoc cfg) = "" -> Register k req ∈ did r ->
      KeyRequest S clientKey = inl k /\ cfgAfter r = withAPIKey k cfg).
Proof.
  intros r. split; [| split; [| split]].
  - intros Hin. exact (register_events cfg clientKey configPath key _ Hin).
  - intros Hgiven.
    destruct (register_shape cfg clientKey configPath key) as (t1 & Hq & Hshape).
    fold r in Hshape. clearbody r.
    destruct Hshape as [[_ ->] | [_ [(err & _ & ->) | (req & _ & [Hfail | Hrun])]]];
      try (simpl; auto; fail).
    + destruct Hfail as (Hk & Ha & _). destruct Hgiven; contradiction.
    + destruct Hrun as (cfg2 & k2 & t3 & saved & m1 & m2 & Hkey & _ & ->). simpl.
      destruct Hkey as [(Hk & Ha & _) | (_ & -> & -> & _)]; [| auto].
      destruct Hgiven; contradiction.
  - intros k req Hin.
    exact (proj1 (register_events cfg clientKey configPath key _ Hin)).
  - intros k req Hk Ha Hin.
    destruct (register_shape cfg clientKey configPath key) as (t1 & Hq & Hshape).
    fold r in Hshape.
    pose proof (register_events cfg clientKey configPath key _ Hin) as (Hkey' & _).
    fold r in Hkey'. clearbody r.
    assert (Hfirst : firstKey cfg clientKey key = clientKey).
    { unfold firstKey, isEmpty. rewrite Hk, Ha. reflexivity. }
    rewrite Hfirst in Hshape.
    assert (Hno : forall t : list (@Event Details),
              Forall isQuiet t -> Register k req ∈ t -> False).
    { intros t Ht Hint. exact (isQuiet_elem _ _ Ht Hint). }
    destruct Hshape as [[_ ->] | [_ [(err & _ & ->) | (req' & _ & [Hfail | Hrun])]]].
    + exfalso. eapply Hno; [| exact Hin]. simpl.
      apply Forall_app. split; [exact Hq | repeat constructor].
    + exfalso. simpl in Hin.
      rewrite elem_of_app, !elem_of_cons, elem_of_nil in Hin.
      destruct Hin as [Hin | [[=] | [[=] | [[=] | []]]]]. eauto.
    + destruct Hfail as (_ & _ & err & _ & ->). exfalso. simpl in Hin.
      rewrite !elem_of_app, !elem_of_cons, elem_of_nil in Hin.
      destruct Hin as [[Hin | [[=] | [[=] | [[=] | []]]]] | [[=] | [[=] | []]]]. eauto.
    + destruct Hrun as (cfg2 & k2 & t3 & saved & m1 & m2 & Hkey & _ & ->).
      simpl in Hkey'. subst k2. simpl.
      destruct Hkey as [(_ & _ & Hreq & -> & _) | ([? | ?] & _)];
        [auto | contradiction | contradiction].
Qed.

(** X14.  Whatever [register] writes is the encoded configuration as it
    leaves it, and goes to the path of the command line or, without one,
    to the default location; a directory is created only for the default
    location. *)
Theorem register_saves_config (cfg : Config) (clientKey configPath key : string) :
  let r := register S cfg clientKey configPath key in
  (forall file content,
      Write file content ∈ did r ->
      file = savePath configPath /\ yamlMarshal S (cfgAfter r) = inl content) /\
  (forall dir,
      Mkdir dir ∈ did r ->
      configPath = "" /\ dir = filepath_Dir S DefaultLocation).
Proof.
  intros r. split.
  - intros file content Hin.
    exact (register_events cfg clientKey configPath key _ Hin).
  - intros dir Hin.
    exact (register_events cfg clientKey configPath key _ Hin).
Qed.

(** X15.  The result of [register] does not depend on the saving: with
    services that differ only in the encoder and the file system, it
    returns the same error, leaves the same configuration and the same
    key.  A failed save is reported to the user and nothing more; the
    result is [nil] exactly when the registration was sent and accepted. *)
Theorem register_result_ignores_saving (S' : @Services Details)
    (cfg : Config) (clientKey configPath key : string) :
  (forall k, AccountStatus S' k = AccountStatus S k) ->
  (forall k, KeyRequest S' k = KeyRequest S k) ->
  (forall k req, AccountRegister S' k req = AccountRegister S k req) ->
  GetAccountRegisterDetails S' = GetAccountRegisterDetails S ->
  let r := register S cfg clientKey configPath key in
  let r' := register S' cfg clientKey configPath key in
  result r' = result r /\ cfgAfter r' = cfgAfter r /\ keyAfter r' = keyAfter r /\
  (result r = None <->
   exists req, Register (keyAfter r) req ∈ did r /\
               AccountRegister S (keyAfter r) req = None).
Proof.
  intros Hstatus Hrequest Hregister Hdetails r r'.
  assert (Hsame : result r' = result r /\ cfgAfter r' = cfgAfter r /\
                  keyAfter r' = keyAfter r).
  { subst r r'. unfold register.
    rewrite Hdetails.
    destruct (if negb (isEmpty key) then _ else _) as [k1 t1] eqn:H1.
    assert (H1' : (if negb (isEmpty key)
                   then (key, [SetKey key; Print (UsingKey key)])
                   else if negb (isEmpty (APIKey (Alphasoc cfg)))
                        then (APIKey (Alphasoc cfg),
                              [SetKey (APIKey (Alphasoc cfg));
                               Print (UsingKey (APIKey (Alphasoc cfg)))])
                        else (clientKey, [])) = (k1, t1 : list (@Event Details)))
      by exact H1.
    rewrite Hstatus, Hrequest.
    destruct (AccountStatus S k1) as [[|] | serr]; [simpl; auto | |];
      (destruct (GetAccountRegisterDetails S) as [req | err]; [| simpl; auto]);
      (destruct (isEmpty key && isEmpty (APIKey (Alphasoc cfg)));
       [destruct (KeyRequest S k1) as [newKey | kerr]; [| simpl; auto] |]);
      rewrite Hregister;
      repeat match goal with
             | |- context [if isEmpty configPath then SaveDefault ?X ?c else Save ?X ?c _] =>
                 destruct (if isEmpty configPath then SaveDefault X c
                           else Save X c configPath)
             end;
      match goal with
      | |- context [AccountRegister S ?k ?q] => destruct (AccountRegister S k q)
      end; simpl; auto. }
  split; [apply Hsame |]. split; [apply Hsame |]. split; [apply Hsame |].
  split.
  - intros Hnil.
    destruct (register_shape cfg clientKey configPath key) as (t1 & Hq & Hshape).
    fold r in Hshape. clearbody r. clear r' Hsame.
    destruct Hshape as [[_ Hr] | [_ [(err & _ & Hr) | (req & _ & [Hfail | Hrun])]]];
      try (rewrite Hr in Hnil; discriminate).
    + destruct Hfail as (_ & _ & err & _ & Hr). rewrite Hr in Hnil. discriminate.
    + destruct Hrun as (cfg2 & k2 & t3 & saved & m1 & m2 & _ & _ & Hr).
      rewrite Hr in *. simpl in *. exists req. split; [| exact Hnil].
      rewrite elem_of_app. right. now left.
  - intros (req & Hin & Hok).
    pose proof (register_events cfg clientKey configPath key _ Hin) as (_ & _ & Hres).
    fold r in Hres. now rewrite Hres.
Qed.

End RegisterProperties.


Lemma register_already_registered_witness :
  AccountStatus (sampleServices true true) (firstKey installedConfig "" "cli-key")
    = inl true /\
  result (register (sampleServices true true) installedConfig "" "" "cli-key")
    = Some "Account is already registered".
Proof.
  assert (H : AccountStatus (sampleServices true true)
                (firstKey installedConfig "" "cli-key") = inl true) by reflexivity.
  split; [exact H |].
  exact (proj1 (register_already_registered (sampleServices true true)
                  installedConfig "" "" "cli-key" H)).
Defined.

Lemma register_key_choice_witness :
  "cli-key" <> "" /\
  cfgAfter (register (sampleServices false true) installedConfig "" "/tmp/x.yml" "cli-key")
    = installedConfig /\
  keyAfter (register (sampleServices false true) installedConfig "" "/tmp/x.yml" "cli-key")
    = "cli-key".
Proof.
  assert (H : "cli-key" <> "") by discriminate.
  split; [exact H |].
  exact (proj1 (proj2 (register_key_choice (sampleServices false true)
                         installedConfig "" "/tmp/x.yml" "cli-key")) (or_introl H)).
Defined.

Lemma register_saves_config_witness :
  Write "/tmp/x.yml" (sampleMarshal installedConfig)
    ∈ did (register (sampleServices false true) installedConfig "" "/tmp/x.yml" "cli-key") /\
  "/tmp/x.yml" = savePath "/tmp/x.yml".
Proof.
  assert (H : Write "/tmp/x.yml" (sampleMarshal installedConfig)
                ∈ did (register (sampleServices false true) installedConfig ""
                         "/tmp/x.yml" "cli-key")).
  { apply list_elem_of_lookup_2 with 5%nat. vm_compute. reflexivity. }
  split; [exact H |].
  exact (proj1 (proj1 (register_saves_config (sampleServices false true)
                         installedConfig "" "/tmp/x.yml" "cli-key") _ _ H)).
Defined.

Lemma register_result_ignores_saving_witness :
  result (register (sampleServices false false) installedConfig "" "" "")
    = result (register (sampleServices false true) installedConfig "" "" "").
Proof.
  exact (proj1 (register_result_ignores_saving (sampleServices false true)
                  (sampleServices false false) installedConfig "" "" ""
                  (fun _ => eq_refl) (fun _ => eq_refl) (fun _ _ => eq_refl) eq_refl)).
Defined.

(** ** Saving and reading back *)

Lemma sortStrings_ascending_id (l : list string) :
  ascending l -> sortStrings l = l.
Proof.
  unfold ascending. induction l as [| x l IH]; intros Hs; [reflexivity |].
  inversion Hs as [| ? ? Hl Hhd]; subst.
  change (sortStrings (x :: l)) with (insertSorted x (sortStrings l)).
  rewrite (IH Hl). destruct l as [| y l]; [reflexivity |].
  simpl. inversion Hhd as [| ? ? Hxy]; subst. now rewrite Hxy.
Qed.

Lemma sortStrings_idem (l : list string) :
  sortStrings (sortStrings l) = sortStrings l.
Proof. apply sortStrings_ascending_id, sortStrings_ascending. Qed.

Lemma withGroups_same (c : Config) gs :
  withGroups (withGroups c gs) (Groups (ScopeConfig c)) = c.
Proof. destruct c as [? ? ? ? ? [?] ? ?]. reflexivity. Qed.

Lemma withGroups_id (c : Config) :
  withGroups c (Groups (ScopeConfig c)) = c.
Proof. destruct c as [? ? ? ? ? [?] ? ?]. reflexivity. Qed.

(** The groups and the error of [loadScopeConfig] depend on the scope file
    and on the groups that are there, and on nothing else. *)
Lemma loadScopeConfig_transfer (W : World) c c1 e d :
  loadScopeConfig W c = (c1, e) ->
  Scope d = Scope c -> Groups (ScopeConfig d) = Groups (ScopeConfig c) ->
  loadScopeConfig W d = (withGroups d (Groups (ScopeConfig c1)), e).
Proof.
  unfold loadScopeConfig. intros H Hs Hg. rewrite Hs, Hg.
  assert (Hd : withGroups d (Groups (ScopeConfig c)) = d)
    by (rewrite <- Hg; destruct d as [? ? ? ? ? [?] ? ?]; reflexivity).
  destruct (if isEmpty (ScopeFile (Scope c)) then _ else _) as [content | cause];
    [| injection H as <- <-; now rewrite Hd].
  destruct (yamlScope W content) as [groups | cause];
    [| injection H as <- <-; now rewrite Hd].
  cbv zeta in *. injection H as <- <-. reflexivity.
Qed.

Lemma fieldDefaults_settled (W : World) d gs k :
  let c := withAPIKey k (sortProtocols (withGroups (fieldDefaults W d) gs)) in
  fieldDefaults W c = c /\ sortProtocols c = c.
Proof.
  intros c. subst c. split.
  - unfold fieldDefaults, withAPIKey, sortProtocols, withGroups; simpl.
    rewrite !orDefault_idem, !orDefaultZ_idem. f_equal.
    + f_equal.
      set (ps := if Nat.eqb (length (Protocols (Network d))) 0
                 then ["udp"] else Protocols (Network d)).
      assert (Hlen : length (sortStrings ps) <> 0%nat).
      { rewrite (Permutation_length (sortStrings_Permutation ps)).
        subst ps. destruct (Protocols (Network d)); simpl; discriminate. }
      apply Nat.eqb_neq in Hlen. now rewrite Hlen.
    + f_equal. destruct (isEmpty (DataFile (Data d))) eqn:Hd; [| now rewrite Hd].
      match goal with |- (if ?b then _ else _) = _ => destruct b end; reflexivity.
  - unfold withAPIKey, sortProtocols, withGroups; simpl.
    now rewrite sortStrings_idem.
Qed.

(** X16.  A configuration that [Read] returned, saved with [Save]
    (possibly with another API key) and read back from the file that holds
    what was written, is the same configuration with the same validation
    result, provided the decoder reads the encoded text back as the
    configuration without its scope groups: the defaults, the sorting and
    the scope loading change nothing the second time. *)
Theorem Save_then_Read (W : World) {Details : Type} (S : @Services Details)
    (cfg : Config) (err : goerror) (original file k content : string) :
  Read W original = (Some cfg, err) ->
  Write file content ∈ fst (Save S (withAPIKey k cfg) file) ->
  ReadFile W file = inl content ->
  (forall text, yamlMarshal S (withAPIKey k cfg) = inl text ->
                yamlConfig W text = inl (withGroups (withAPIKey k cfg) ∅)) ->
  Read W file = (Some (withAPIKey k cfg), err).
Proof.
  intros Horig Hsaved Hfile Hinverse.
  apply Save_events in Hsaved. destruct Hsaved as (content' & [= <-] & Hmarshal).
  pose proof (Hinverse content Hmarshal) as Hdecode. clear Hinverse Hmarshal.
  apply Read_Some in Horig.
  destruct Horig as (content0 & decoded0 & loaded & _ & _ & Hl & Hcfg & ->).
  destruct (loadScopeConfig_groups_only W (withGroups decoded0 ∅)) as [gs Hgs].
  rewrite Hl in Hgs. simpl in Hgs.
  destruct (loadScopeConfig_groups_only W (fieldDefaults W loaded)) as [gs' Hgs'].
  assert (Hshape : cfg = sortProtocols (withGroups (fieldDefaults W loaded) gs')).
  { rewrite Hcfg, setDefaults_fieldDefaults, Hgs'. reflexivity. }
  assert (Hgroups : Groups (ScopeConfig cfg) = Groups (ScopeConfig loaded)).
  { rewrite Hcfg. change (ScopeConfig (sortProtocols ?c)) with (ScopeConfig c).
    rewrite setDefaults_fieldDefaults.
    now apply loadScopeConfig_again with (withGroups decoded0 ∅). }
  assert (Hscope : Scope cfg = Scope loaded).
  { rewrite Hcfg. change (Scope (sortProtocols ?c)) with (Scope c).
    apply setDefaults_Scope. }
  set (c' := withAPIKey k cfg) in *.
  destruct (fieldDefaults_settled W loaded gs' k) as [Hfield Hsort].
  rewrite <- Hshape in Hfield, Hsort. fold c' in Hfield, Hsort.
  assert (Hload : loadScopeConfig W (withGroups c' ∅) = (c', None)).
  { rewrite (loadScopeConfig_transfer W _ _ _ (withGroups c' ∅) Hl).
    - rewrite <- Hgroups. change (Groups (ScopeConfig cfg)) with (Groups (ScopeConfig c')).
      now rewrite withGroups_same.
    - simpl. rewrite Hscope, Hgs. reflexivity.
    - reflexivity. }
  assert (Hagain : setDefaults W c' = c').
  { rewrite setDefaults_fieldDefaults, Hfield.
    destruct (loadScopeConfig_groups_only W c') as [gs'' Hgs''].
    assert (Ha : Groups (ScopeConfig (fst (loadScopeConfig W c')))
                 = Groups (ScopeConfig loaded)).
    { apply loadScopeConfig_again with (withGroups decoded0 ∅); [exact Hl | |].
      - exact Hscope.
      - change (ScopeConfig c') with (ScopeConfig cfg).
        destruct (ScopeConfig cfg), (ScopeConfig loaded). simpl in Hgroups. now subst. }
    rewrite Hgs'' in *. simpl in Ha. rewrite Ha, <- Hgroups.
    change (Groups (ScopeConfig cfg)) with (Groups (ScopeConfig c')).
    apply withGroups_id. }
  unfold Read. rewrite Hfile, Hdecode.
  change (withGroups (withGroups c' ∅) (Groups (ScopeConfig zeroConfig)))
    with (withGroups c' ∅).
  rewrite Hload, Hagain, Hsort. reflexivity.
Qed.

Lemma Save_then_Read_witness :
  Read withCopy DefaultLocation = (Some installedConfig, None) /\
  Read withCopy "/etc/nfr/copy.yml" = (Some (withAPIKey "new-key" installedConfig), None).
Proof.
  assert (Horig : Read withCopy DefaultLocation = (Some installedConfig, None))
    by (vm_compute; reflexivity).
  split; [exact Horig |].
  apply (Save_then_Read withCopy (sampleServices false true) installedConfig None
           DefaultLocation "/etc/nfr/copy.yml" "new-key"
           (sampleMarshal (withAPIKey "new-key" installedConfig)) Horig).
  - apply list_elem_of_singleton. reflexivity.
  - vm_compute. reflexivity.
  - intros text H.
    change (inl (sampleMarshal (withAPIKey "new-key" installedConfig))
            = (inl text : string + string)) in H.
    injection H as <-. vm_compute. reflexivity.
Defined.
